(** * Real-time chat client: conversation synchronisation core

    A shallow embedding of the client logic of the chat application
    ([ChatWindow.jsx], [MessageInput.jsx], [useUnreadMessages.js]) over a
    model of the backing store described by the SQL migration
    (tables [conversations], [messages], [typing_indicators], their
    defaults, CHECK and UNIQUE constraints and the [on_message_created]
    trigger).

    Conventions of the model:
    - a [uuid] is a natural number; [gen_random_uuid()] is a counter kept
      in the store, so a generated id is distinct from every id generated
      before;
    - a timestamp is a natural number; every [new Date()] of the client
      and every [now()] of the store is an explicit argument;
    - a JS string is the list of its UTF-16 code units; a column of type
      [text] holds it only if it has no U+0000 and no lone surrogate
      ([storable]), and the store refuses the row otherwise;
    - an [async] function is a state transformer over the [World] (the
      store together with the React state of the components) that either
      returns or throws; one call runs without interference from other
      clients, except where an interference is an explicit argument
      ([getOrCreateConversation_with]);
    - [MessageInput.jsx] is embedded twice: wired to the chat window
      ([handleSubmit], whose calls run one after the other), and alone,
      with its props kept as the log of the calls it starts
      ([MessageInput]);
    - foreign keys and row-level-security policies are not modelled: the
      session user is authenticated and every conversation id the client
      uses was returned by the resolver for that user. *)

From Stdlib Require Import NArith.
From stdpp Require Import gmap list sorting.

Local Open Scope nat_scope.

(** ** Data model (the SQL schema) *)

Abbreviation uuid := nat (only parsing).
Abbreviation timestamptz := nat (only parsing).

(** A JS string: UTF-16 code units. *)
Abbreviation text := (list N) (only parsing).

Record conversation := Conversation {
  conv_id : uuid;
  participant_1 : uuid;
  participant_2 : uuid;
  conv_created_at : timestamptz;
  conv_updated_at : timestamptz
}.

Record message := Message {
  msg_id : uuid;
  conversation_id : uuid;
  sender_id : uuid;
  content : text;
  is_read : bool;
  delivered_at : option timestamptz;
  read_at : option timestamptz;
  created_at : timestamptz
}.

Record typing_indicator := TypingIndicator {
  ti_id : uuid;
  ti_conversation_id : uuid;
  ti_user_id : uuid;
  is_typing : bool;
  ti_updated_at : timestamptz
}.

(** The backing store: three tables and the uuid generator. *)
Record Db := MkDb {
  conversations : list conversation;
  messages : list message;
  typing_indicators : list typing_indicator;
  uuid_seed : nat
}.

Definition empty_db : Db := MkDb [] [] [] 0.

#[global] Instance conversation_eq_dec : EqDecision conversation.
Proof. solve_decision. Defined.
#[global] Instance message_eq_dec : EqDecision message.
Proof. solve_decision. Defined.
#[global] Instance typing_indicator_eq_dec : EqDecision typing_indicator.
Proof. solve_decision. Defined.
#[global] Instance Db_eq_dec : EqDecision Db.
Proof. solve_decision. Defined.

(** ** PostgREST responses *)

Inductive PostgrestError :=
  | unique_violation   (* 23505 *)
  | check_violation    (* 23514 *)
  | untranslatable_character   (* 22P05 *)
  | PGRST116.          (* .single()/.maybeSingle() on the wrong number of rows *)

#[global] Instance PostgrestError_eq_dec : EqDecision PostgrestError.
Proof. solve_decision. Defined.

(** The [{ data, error }] object every query resolves to. *)
Record response (A : Type) := Response {
  data : option A;
  error : option PostgrestError
}.
Arguments Response {A} _ _.
Arguments data {A} _.
Arguments error {A} _.

(** [.maybeSingle()]: no row is [data = null] without an error, one row is
    that row, several rows are an error. *)
Definition maybeSingle {A} (rows : list A) : response A :=
  match rows with
  | [] => Response None None
  | [r] => Response (Some r) None
  | _ => Response None (Some PGRST116)
  end.

(** [.single()]: exactly one row, anything else is an error. *)
Definition single {A} (rows : response (list A)) : response A :=
  match error rows with
  | Some e => Response None (Some e)
  | None =>
      match data rows with
      | Some [r] => Response (Some r) None
      | _ => Response None (Some PGRST116)
      end
  end.

(** ** Store operations used by the client *)

(** [.or(and(participant_1.eq.a,participant_2.eq.b),
         and(participant_1.eq.b,participant_2.eq.a))] *)
Definition pair_filter (a b : uuid) (c : conversation) : Prop :=
  (participant_1 c = a ∧ participant_2 c = b)
  ∨ (participant_1 c = b ∧ participant_2 c = a).

#[global] Instance pair_filter_dec a b c : Decision (pair_filter a b c).
Proof. unfold pair_filter. apply _. Defined.

(** [.or(participant_1.eq.u,participant_2.eq.u)] *)
Definition participant_filter (u : uuid) (c : conversation) : Prop :=
  participant_1 c = u ∨ participant_2 c = u.

#[global] Instance participant_filter_dec u c : Decision (participant_filter u c).
Proof. unfold participant_filter. apply _. Defined.

(** Key of [idx_conversations_participants]:
    [(LEAST(participant_1, participant_2), GREATEST(...))]. *)
Definition pair_key (p1 p2 : uuid) : nat * nat := (Nat.min p1 p2, Nat.max p1 p2).

Definition conv_key (c : conversation) : nat * nat :=
  pair_key (participant_1 c) (participant_2 c).

(** [INSERT INTO conversations (participant_1, participant_2)]: the CHECK
    constraint, then the unique index; the other columns take their
    defaults. Returns the inserted row ([.select('id')]). *)
Definition insert_conversation (now : timestamptz) (p1 p2 : uuid) (d : Db)
  : response (list conversation) * Db :=
  if decide (p1 = p2) then (Response None (Some check_violation), d)
  else if decide (pair_key p1 p2 ∈ conv_key <$> conversations d)
  then (Response None (Some unique_violation), d)
  else
    let row := Conversation (uuid_seed d) p1 p2 now now in
    (Response (Some [row]) None,
     MkDb (conversations d ++ [row]) (messages d) (typing_indicators d)
          (S (uuid_seed d))).

(** [on_message_created]: [UPDATE conversations SET updated_at = now()
    WHERE id = NEW.conversation_id]. *)
Definition update_conversation_timestamp (now : timestamptz) (cid : uuid)
    (c : conversation) : conversation :=
  if decide (conv_id c = cid)
  then Conversation (conv_id c) (participant_1 c) (participant_2 c)
                    (conv_created_at c) now
  else c.

(** What a column of type [text] can hold of a JS string: no U+0000, and
    surrogate code units only as a high one followed by a low one. *)
Definition is_high_surrogate (c : N) : bool := ((55296 <=? c) && (c <=? 56319))%N.

Definition is_low_surrogate (c : N) : bool := ((56320 <=? c) && (c <=? 57343))%N.

Fixpoint well_formed (s : text) : bool :=
  match s with
  | [] => true
  | c :: rest =>
      if is_high_surrogate c
      then match rest with
           | l :: rest' => is_low_surrogate l && well_formed rest'
           | [] => false
           end
      else negb (is_low_surrogate c) && well_formed rest
  end.

Definition storable (s : text) : bool :=
  forallb (fun c => negb (c =? 0)%N) s && well_formed s.

(** [INSERT INTO messages (conversation_id, sender_id, content,
    delivered_at)]: the request is refused, and nothing is written, when
    the column [content text] cannot hold the content; otherwise
    [is_read] defaults to false, [read_at] to null, [created_at] to
    [now()], and the trigger then bumps the conversation. *)
Definition insert_message (now : timestamptz) (cid sender : uuid) (body : text)
    (delivered : timestamptz) (d : Db) : response unit * Db :=
  if storable body
  then
    let row := Message (uuid_seed d) cid sender body false (Some delivered) None now in
    (Response None None,
     MkDb (update_conversation_timestamp now cid <$> conversations d)
          (messages d ++ [row]) (typing_indicators d) (S (uuid_seed d)))
  else (Response None (Some untranslatable_character), d).

(** [UPDATE messages SET is_read = true, read_at = t WHERE id = mid]. *)
Definition set_read (t : timestamptz) (mid : uuid) (m : message) : message :=
  if decide (msg_id m = mid)
  then Message (msg_id m) (conversation_id m) (sender_id m) (content m)
               true (delivered_at m) (Some t) (created_at m)
  else m.

Definition update_message_read (t : timestamptz) (mid : uuid) (d : Db) : Db :=
  MkDb (conversations d) (set_read t mid <$> messages d)
       (typing_indicators d) (uuid_seed d).

(** [ORDER BY created_at ASC]. *)
Definition created_le (a b : message) : Prop := created_at a ≤ created_at b.

#[global] Instance created_le_dec : RelDecision created_le.
Proof. intros a b. unfold created_le. apply _. Defined.

(** [SELECT * FROM messages WHERE conversation_id = cid ORDER BY created_at]. *)
Definition select_messages (cid : uuid) (d : Db) : list message :=
  merge_sort created_le
    (filter (fun m => conversation_id m = cid) (messages d)).

(** The row filter of the unread count:
    [.eq('conversation_id', cid).eq('is_read', false).neq('sender_id', u)]. *)
Definition unread_for (cid u : uuid) (m : message) : Prop :=
  conversation_id m = cid ∧ is_read m = false ∧ sender_id m ≠ u.

#[global] Instance unread_for_dec cid u m : Decision (unread_for cid u m).
Proof. unfold unread_for. apply _. Defined.

(** [.select('*', { count: 'exact', head: true })]: the response carries
    the number of matching rows. *)
Definition count_unread (cid u : uuid) (d : Db) : response nat :=
  Response (Some (length (filter (unread_for cid u) (messages d)))) None.

(** [.eq('conversation_id', cid).eq('user_id', u)] on typing_indicators. *)
Definition typing_filter (cid u : uuid) (t : typing_indicator) : Prop :=
  ti_conversation_id t = cid ∧ ti_user_id t = u.

#[global] Instance typing_filter_dec cid u t : Decision (typing_filter cid u t).
Proof. unfold typing_filter. apply _. Defined.

Definition typing_key (t : typing_indicator) : nat * nat :=
  (ti_conversation_id t, ti_user_id t).

(** [UPDATE typing_indicators SET is_typing = b, updated_at = t
    WHERE id = tid]. *)
Definition set_typing (b : bool) (t : timestamptz) (tid : uuid)
    (r : typing_indicator) : typing_indicator :=
  if decide (ti_id r = tid)
  then TypingIndicator (ti_id r) (ti_conversation_id r) (ti_user_id r) b t
  else r.

Definition update_typing (b : bool) (t : timestamptz) (tid : uuid) (d : Db) : Db :=
  MkDb (conversations d) (messages d)
       (set_typing b t tid <$> typing_indicators d) (uuid_seed d).

(** [INSERT INTO typing_indicators (conversation_id, user_id, is_typing)]
    under [UNIQUE(conversation_id, user_id)]; [updated_at] defaults to
    [now()]. *)
Definition insert_typing (now : timestamptz) (cid u : uuid) (b : bool) (d : Db)
  : response unit * Db :=
  if decide ((cid, u) ∈ typing_key <$> typing_indicators d)
  then (Response None (Some unique_violation), d)
  else
    (Response None None,
     MkDb (conversations d) (messages d)
          (typing_indicators d ++ [TypingIndicator (uuid_seed d) cid u b now])
          (S (uuid_seed d))).

(** ** The world of one client and the [async] monad *)

(** The store together with the React state of the mounted components:
    [ChatWindow] ([messages], [conversationId], [loading], [isTyping]),
    the [useUnreadMessages] hook ([unreadCounts], a JS object used as a
    map from peer id to count) and [MessageInput] ([message]). *)
Record World := MkWorld {
  db : Db;
  st_messages : list message;
  st_conversationId : option uuid;
  st_loading : bool;
  st_isTyping : bool;
  st_unreadCounts : gmap nat nat;
  st_message : text
}.

Definition initial_world (d : Db) : World :=
  MkWorld d [] None true false ∅ [].

Definition set_db (d : Db) (w : World) : World :=
  MkWorld d (st_messages w) (st_conversationId w) (st_loading w)
          (st_isTyping w) (st_unreadCounts w) (st_message w).

(** What a JS function can throw here: the error object of a response, or
    the TypeError of reading a property of [null]. *)
Inductive exception :=
  | PostgrestErr (e : PostgrestError)
  | TypeError.

Inductive outcome (A : Type) :=
  | Returned (a : A)
  | Thrown (e : exception).
Arguments Returned {A} a.
Arguments Thrown {A} e.

Definition Async (A : Type) : Type := World → outcome A * World.

Definition ret {A} (a : A) : Async A := fun w => (Returned a, w).

Definition throw {A} (e : exception) : Async A := fun w => (Thrown e, w).

Definition bind {A B} (m : Async A) (k : A → Async B) : Async B :=
  fun w =>
    match m w with
    | (Returned a, w') => k a w'
    | (Thrown e, w') => (Thrown e, w')
    end.

(** [try { m } catch (error) { h error }] *)
Definition try_catch {A} (m : Async A) (h : exception → Async A) : Async A :=
  fun w =>
    match m w with
    | (Returned a, w') => (Returned a, w')
    | (Thrown e, w') => h e w'
    end.

(** [try { m } finally { f }] *)
Definition try_finally {A} (m : Async A) (f : Async unit) : Async A :=
  fun w =>
    match m w with
    | (o, w') =>
        match f w' with
        | (Returned _, w'') => (o, w'')
        | (Thrown e, w'') => (Thrown e, w'')
        end
    end.

Declare Scope async_scope.
Delimit Scope async_scope with async.
Notation "'await' x <- m ;; k" := (bind m (fun x => k))
  (at level 100, x name, m at level 99, k at level 200,
   right associativity) : async_scope.
Notation "m ;; k" := (bind m (fun _ => k))
  (at level 100, k at level 200, right associativity) : async_scope.
Local Open Scope async_scope.

(** [await] of a read-only query, of a query that writes, of a write whose
    response the caller drops. *)
Definition select {R} (q : Db → R) : Async R := fun w => (Returned (q (db w)), w).

Definition query {R} (q : Db → R * Db) : Async R :=
  fun w => let '(r, d) := q (db w) in (Returned r, set_db d w).

Definition exec (q : Db → Db) : Async unit :=
  fun w => (Returned tt, set_db (q (db w)) w).

(** Another client's writes landing between two awaits. *)
Definition interfere (f : Db → Db) : Async unit := exec f.

(** React state setters. *)
Definition setMessages (f : list message → list message) : Async unit :=
  fun w => (Returned tt,
            MkWorld (db w) (f (st_messages w)) (st_conversationId w)
                    (st_loading w) (st_isTyping w) (st_unreadCounts w)
                    (st_message w)).

Definition setConversationId (c : uuid) : Async unit :=
  fun w => (Returned tt,
            MkWorld (db w) (st_messages w) (Some c) (st_loading w)
                    (st_isTyping w) (st_unreadCounts w) (st_message w)).

Definition setLoading (b : bool) : Async unit :=
  fun w => (Returned tt,
            MkWorld (db w) (st_messages w) (st_conversationId w) b
                    (st_isTyping w) (st_unreadCounts w) (st_message w)).

Definition setIsTyping (b : bool) : Async unit :=
  fun w => (Returned tt,
            MkWorld (db w) (st_messages w) (st_conversationId w) (st_loading w)
                    b (st_unreadCounts w) (st_message w)).

Definition setUnreadCounts (counts : gmap nat nat) : Async unit :=
  fun w => (Returned tt,
            MkWorld (db w) (st_messages w) (st_conversationId w) (st_loading w)
                    (st_isTyping w) counts (st_message w)).

Definition setMessage (s : text) : Async unit :=
  fun w => (Returned tt,
            MkWorld (db w) (st_messages w) (st_conversationId w) (st_loading w)
                    (st_isTyping w) (st_unreadCounts w) s).

Definition conversationId : Async (option uuid) :=
  fun w => (Returned (st_conversationId w), w).

(** ** [String.prototype.trim] *)

(** ECMAScript WhiteSpace and LineTerminator code points. *)
Definition is_white_space (c : N) : bool :=
  (existsb (N.eqb c)
     [9; 10; 11; 12; 13; 32; 160; 5760; 8232; 8233; 8239; 8287; 12288; 65279]
   || (8192 <=? c) && (c <=? 8202))%N.

Fixpoint trimStart (s : text) : text :=
  match s with
  | c :: s' => if is_white_space c then trimStart s' else s
  | [] => []
  end.

Definition trimEnd (s : text) : text := rev (trimStart (rev s)).

Definition trim (s : text) : text := trimEnd (trimStart s).

(** JS truthiness of a string: [!s] holds exactly for the empty string. *)
Definition falsy (s : text) : bool :=
  match s with [] => true | _ => false end.

(** ** ChatWindow.jsx *)

(** [getOrCreateConversation], with the writes [interference] of other
    clients landing between the lookup and the insert. [user] is
    [user.id], [selectedUser] is [selectedUser.id]. *)
Definition getOrCreateConversation_with (interference : Db → Db)
    (now : timestamptz) (user selectedUser : uuid) : Async uuid :=
  try_catch
    (await r <- select (fun d =>
        maybeSingle (filter (pair_filter user selectedUser) (conversations d))) ;;
     match error r with
     | Some fetchError => throw (PostgrestErr fetchError)
     | None =>
         match data r with
         | Some existing => ret (conv_id existing)
         | None =>
             interfere interference ;;
             await r' <- query (fun d =>
               let '(rows, d') := insert_conversation now user selectedUser d in
               (single rows, d')) ;;
             match error r' with
             | Some createError => throw (PostgrestErr createError)
             | None =>
                 match data r' with
                 | Some newConversation => ret (conv_id newConversation)
                 | None => throw TypeError
                 end
             end
         end
     end)
    (fun error => (* console.error *) throw error).

(** One call with no other client writing in between. *)
Definition getOrCreateConversation : timestamptz → uuid → uuid → Async uuid :=
  getOrCreateConversation_with (fun d => d).

(** [markMessageAsRead]: the response of the update is dropped. *)
Definition markMessageAsRead (now : timestamptz) (messageId : uuid) : Async unit :=
  try_catch
    (exec (update_message_read now messageId))
    (fun _ => (* console.error *) ret tt).

(** The [for ... of] loop of [loadMessages]; [clock k] is the reading of
    [new Date()] in iteration [k]. *)
Fixpoint markEach (clock : nat → timestamptz) (k : nat)
    (unreadMessages : list message) : Async unit :=
  match unreadMessages with
  | [] => ret tt
  | msg :: rest =>
      markMessageAsRead (clock k) (msg_id msg) ;;
      markEach clock (S k) rest
  end.

(** The filter of [loadMessages]:
    [msg.sender_id !== user.id && !msg.is_read]. *)
Definition unread_from_peer (user : uuid) (msg : message) : Prop :=
  sender_id msg ≠ user ∧ is_read msg = false.

#[global] Instance unread_from_peer_dec user msg : Decision (unread_from_peer user msg).
Proof. unfold unread_from_peer. apply _. Defined.

Definition loadMessages (clock : nat → timestamptz) (user convId : uuid)
  : Async unit :=
  try_catch
    (await r <- select (fun d => Response (Some (select_messages convId d)) None) ;;
     match error r with
     | Some e => throw (PostgrestErr e)
     | None =>
         setMessages (fun _ => default [] (data r)) ;;
         let unreadMessages := filter (unread_from_peer user) <$> data r in
         markEach clock 0 (default [] unreadMessages)
     end)
    (fun _ => (* console.error *) ret tt).

Definition initializeConversation (now : timestamptz) (clock : nat → timestamptz)
    (user selectedUser : uuid) : Async unit :=
  try_finally
    (try_catch
       (setLoading true ;;
        await convId <- getOrCreateConversation now user selectedUser ;;
        setConversationId convId ;;
        loadMessages clock user convId)
       (fun _ => (* console.error *) ret tt))
    (setLoading false).

(** [handleSendMessage]: [date] is the client's [new Date()], [now] the
    store's [now()]. *)
Definition handleSendMessage (date now : timestamptz) (user : uuid)
    (content : text) : Async unit :=
  await cid <- conversationId ;;
  match cid with
  | None => ret tt
  | Some conversationId =>
      if falsy (trim content) then ret tt
      else
        try_catch
          (await r <- query (insert_message now conversationId user
                                            (trim content) date) ;;
           match error r with
           | Some e => throw (PostgrestErr e)
           | None => ret tt
           end)
          (fun _ => (* console.error *) ret tt)
  end.

(** [updateTypingIndicator]: the error of the lookup is not inspected and
    the responses of the update and of the insert are dropped. *)
Definition updateTypingIndicator (date now : timestamptz) (user : uuid)
    (typing : bool) : Async unit :=
  await cid <- conversationId ;;
  match cid with
  | None => ret tt
  | Some conversationId =>
      try_catch
        (await r <- select (fun d =>
           maybeSingle (filter (typing_filter conversationId user)
                               (typing_indicators d))) ;;
         match data r with
         | Some existing => exec (update_typing typing date (ti_id existing))
         | None =>
             query (insert_typing now conversationId user typing) ;;
             ret tt
         end)
        (fun _ => (* console.error *) ret tt)
  end.

(** Change events of the [messages:${conversationId}] channel. *)
Inductive ChangeEvent :=
  | INSERT (new : message)
  | UPDATE (new : message).

Definition payload_new (ev : ChangeEvent) : message :=
  match ev with INSERT new | UPDATE new => new end.

(** The INSERT handler; [markMessageAsRead] is started without [await]
    and modelled as running to completion. *)
Definition onInsert (now : timestamptz) (user : uuid) (new : message) : Async unit :=
  setMessages (fun prev => prev ++ [new]) ;;
  if decide (sender_id new ≠ user)
  then markMessageAsRead now (msg_id new)
  else ret tt.

(** The UPDATE handler. *)
Definition onUpdate (new : message) : Async unit :=
  setMessages (fun prev =>
    (fun msg => if decide (msg_id msg = msg_id new) then new else msg) <$> prev).

Definition messagesChannel (now : timestamptz) (user : uuid) (ev : ChangeEvent)
  : Async unit :=
  match ev with
  | INSERT new => onInsert now user new
  | UPDATE new => onUpdate new
  end.

(** [payload.new] of a change event on [typing_indicators]: the row of an
    INSERT or UPDATE, the empty object [{}] of a DELETE, or [null]. *)
Inductive TypingPayload :=
  | NewRow (row : typing_indicator)
  | NewEmpty
  | NewNull.

(** The handler of the [typing:${conversationId}] channel. For [{}] the
    guard holds ([payload.new] is truthy and its [user_id], [undefined],
    differs from every user id) and the handler calls
    [setIsTyping(undefined)]; [st_isTyping] keeps the truthiness of the
    state, so it becomes [false]. *)
Definition typingChannel (user : uuid) (new : TypingPayload) : Async unit :=
  match new with
  | NewRow t => if decide (ti_user_id t ≠ user) then setIsTyping (is_typing t) else ret tt
  | NewEmpty => setIsTyping false
  | NewNull => ret tt
  end.

(** ** MessageInput.jsx *)

(** [handleSubmit] with [onTyping = updateTypingIndicator] and
    [onSendMessage = handleSendMessage], as [ChatWindow] passes them. The
    typing timer is not modelled; [onTyping(false)] is started without
    [await] and modelled as running to completion before the send (the
    two write to different tables). *)
Definition handleSubmit (date now : timestamptz) (user : uuid) (disabled : bool)
  : Async unit :=
  fun w =>
    let message := st_message w in
    if falsy (trim message) || disabled then (Returned tt, w)
    else
      let trimmedMessage := trim message in
      (setMessage [] ;;
       updateTypingIndicator date now user false ;;
       handleSendMessage date now user trimmedMessage) w.

(** ** useUnreadMessages.js *)

Definition otherUserId (user : uuid) (conv : conversation) : uuid :=
  if decide (participant_1 conv = user)
  then participant_2 conv
  else participant_1 conv.

(** The loop of [fetchUnreadCounts] over the conversations, filling the
    object [counts]. *)
Fixpoint countEach (user : uuid) (convs : list conversation)
    (counts : gmap nat nat) : Async (gmap nat nat) :=
  match convs with
  | [] => ret counts
  | conv :: rest =>
      await r <- select (count_unread (conv_id conv) user) ;;
      countEach user rest
        (match error r with
         | None => <[otherUserId user conv := default 0 (data r)]> counts
         | Some _ => counts
         end)
  end.

(** [fetchUnreadCounts]; [user] is [null] before authentication. *)
Definition fetchUnreadCounts (user : option uuid) : Async unit :=
  match user with
  | None => ret tt
  | Some u =>
      try_catch
        (await r <- select (fun d =>
           Response (Some (filter (participant_filter u) (conversations d))) None) ;;
         match error r with
         | Some convError => throw (PostgrestErr convError)
         | None =>
             await counts <- countEach u (default [] (data r)) ∅ ;;
             setUnreadCounts counts
         end)
        (fun _ => (* console.error *) ret tt)
  end.

(** ** Specification-level definitions *)

(** The constraints of the schema that the store enforces: primary keys
    (generated ids lie below the generator's counter),
    [different_participants], [idx_conversations_participants] and
    [UNIQUE(conversation_id, user_id)]. *)
Record schema_ok (d : Db) : Prop := SchemaOk {
  conv_pkey : NoDup (conv_id <$> conversations d);
  conv_generated : Forall (fun c => conv_id c < uuid_seed d) (conversations d);
  different_participants :
    Forall (fun c => participant_1 c ≠ participant_2 c) (conversations d);
  idx_conversations_participants : NoDup (conv_key <$> conversations d);
  msg_pkey : NoDup (msg_id <$> messages d);
  msg_generated : Forall (fun m => msg_id m < uuid_seed d) (messages d);
  typing_pkey : NoDup (ti_id <$> typing_indicators d);
  typing_generated : Forall (fun t => ti_id t < uuid_seed d) (typing_indicators d);
  typing_unique : NoDup (typing_key <$> typing_indicators d)
}.

(** The reconciliation rule as the specification words it: merge by
    message id, replace in place when the id is present locally, append
    otherwise. *)
Definition replace_by_id (new : message) (msg : message) : message :=
  if decide (msg_id msg = msg_id new) then new else msg.

Definition merge_by_id (new : message) (local : list message) : list message :=
  if decide (msg_id new ∈ msg_id <$> local)
  then replace_by_id new <$> local
  else local ++ [new].

(** [is_read] mirrors whether [read_at] is set. *)
Definition read_mirror (m : message) : Prop :=
  is_read m = bool_decide (read_at m ≠ None).

(** What a client does to the store: the entry points of the components,
    called by any user with any arguments. *)
Inductive action :=
  | SelectPeer (now : timestamptz) (clock : nat → timestamptz)
               (user selectedUser : uuid)
  | Send (date now : timestamptz) (user : uuid) (content : text)
  | Submit (date now : timestamptz) (user : uuid) (disabled : bool)
  | Typing (date now : timestamptz) (user : uuid) (typing : bool)
  | MessageEvent (now : timestamptz) (user : uuid) (ev : ChangeEvent)
  | TypingEvent (user : uuid) (new : TypingPayload)
  | Recount (user : option uuid).

Definition run (a : action) : Async unit :=
  match a with
  | SelectPeer now clock user selectedUser =>
      initializeConversation now clock user selectedUser
  | Send date now user content => handleSendMessage date now user content
  | Submit date now user disabled => handleSubmit date now user disabled
  | Typing date now user typing => updateTypingIndicator date now user typing
  | MessageEvent now user ev => messagesChannel now user ev
  | TypingEvent user new => typingChannel user new
  | Recount user => fetchUnreadCounts user
  end.

(** One step of the store: some client, in some React state, runs one of
    its entry points. *)
Definition db_step (d d' : Db) : Prop :=
  ∃ (a : action) (w : World), db w = d ∧ db (snd (run a w)) = d'.

(** The stores reachable from the empty one. *)
Definition reachable (d : Db) : Prop := rtc db_step empty_db d.

(** A sequence of [setTyping] calls by one user, each with its readings
    of the two clocks. *)
Definition setTyping_calls (user : uuid)
    (calls : list (timestamptz * timestamptz * bool)) (w : World) : World :=
  foldl (fun w '(date, now, typing) =>
           snd (updateTypingIndicator date now user typing w)) w calls.

(** An [Async] computation fails when it throws. *)
Definition fails {A} (r : outcome A * World) : Prop :=
  ∃ e, fst r = Thrown e.

(** ** MessageList.jsx *)

Inductive DeliveryStatus := Read | Delivered | Sent.

(** [getDeliveryStatus]: nothing under a message of the peer; under an own
    message the first of Read, Delivered, Sent whose timestamp is set. A
    timestamp is an ISO string, truthy whenever it is not [null]. *)
Definition getDeliveryStatus (currentUserId : uuid) (message : message)
  : option DeliveryStatus :=
  if decide (sender_id message ≠ currentUserId) then None
  else match read_at message with
       | Some _ => Some Read
       | None =>
           match delivered_at message with
           | Some _ => Some Delivered
           | None => Some Sent
           end
       end.

(** ** UserList.jsx *)

(** [unreadCounts[otherUser.id] || 0] *)
Definition unreadCount (unreadCounts : gmap nat nat) (otherUser : uuid) : nat :=
  default 0 (unreadCounts !! otherUser).

(** The red badge: absent unless [unreadCount > 0], and then the count or
    ['99+']. *)
Inductive badge := Count (n : nat) | NinetyNinePlus.

Definition unreadBadge (unreadCounts : gmap nat nat) (otherUser : uuid)
  : option badge :=
  let n := unreadCount unreadCounts otherUser in
  if decide (0 < n)
  then Some (if decide (99 < n) then NinetyNinePlus else Count n)
  else None.

(** ** The subscriptions of ChatWindow.jsx *)

(** The [messages:${conversationId}] channel delivers to its handlers the
    events that pass [filter: conversation_id=eq.${conversationId}]. *)
Definition messagesSubscription (conversationId : uuid) (now : timestamptz)
    (user : uuid) (ev : ChangeEvent) : Async unit :=
  if decide (conversation_id (payload_new ev) = conversationId)
  then messagesChannel now user ev
  else ret tt.

(** A run of events on the channel, each with the client's clock reading
    at its arrival. *)
Definition deliver (conversationId user : uuid)
    (evs : list (timestamptz * ChangeEvent)) (w : World) : World :=
  foldl (fun w '(now, ev) =>
           snd (messagesSubscription conversationId now user ev w)) w evs.

(** ** The timers of MessageInput.jsx *)

(** [typingTimeoutRef.current], the timers armed with [setTimeout] and
    neither fired nor cleared, and the id the next [setTimeout] returns
    (timer ids are positive integers). *)
Record Timers := MkTimers {
  typingTimeoutRef : option nat;
  pending : list nat;
  next_timer : nat
}.

Definition initial_timers : Timers := MkTimers None [] 1.

Definition clearTimeout (id : nat) (t : Timers) : Timers :=
  MkTimers (typingTimeoutRef t) (filter (fun i => i ≠ id) (pending t))
           (next_timer t).

(** [typingTimeoutRef.current = setTimeout(...)] *)
Definition armTimeout (t : Timers) : Timers :=
  MkTimers (Some (next_timer t)) (pending t ++ [next_timer t])
           (S (next_timer t)).

(** [if (typingTimeoutRef.current) clearTimeout(typingTimeoutRef.current)]:
    a timer id is truthy unless it is 0. *)
Definition clearTypingTimeout (t : Timers) : Timers :=
  match typingTimeoutRef t with
  | Some (S i) => clearTimeout (S i) t
  | _ => t
  end.

(** The [disabled] attribute of the Send button. *)
Definition sendDisabled (message : text) (disabled : bool) : bool :=
  falsy (trim message) || disabled.

(** ** MessageInput.jsx as a component *)

(** The calls the component starts on its props. It waits for none of
    them: [onTyping] is never awaited, and after [await onSendMessage]
    only the focus moves. What a call goes on to do, and how the calls
    started by different handlers overlap, is the caller's business; a
    handler is here the list of calls it starts, in order. *)
Inductive PropCall :=
  | onTyping (typing : bool)
  | onSendMessage (content : text).

(** The state [message], the timers, and the calls started so far. *)
Record MessageInput := MkMessageInput {
  input_message : text;
  input_timers : Timers;
  input_calls : list PropCall
}.

Definition initial_MessageInput : MessageInput :=
  MkMessageInput [] initial_timers [].

(** [handleChange]; [has_onTyping] tells whether the prop [onTyping] was
    given. *)
Definition handleChange (has_onTyping : bool) (value : text)
    (s : MessageInput) : MessageInput :=
  if has_onTyping
  then MkMessageInput value
                      (armTimeout (clearTypingTimeout (input_timers s)))
                      (input_calls s ++ [onTyping true])
  else MkMessageInput value (input_timers s) (input_calls s).

(** The browser running the callback of timer [id], if it is still
    armed: [onTyping(false)]. A timer that ran is no longer armed. *)
Definition timerFires (id : nat) (s : MessageInput) : MessageInput :=
  if decide (id ∈ pending (input_timers s))
  then MkMessageInput (input_message s)
                      (clearTimeout id (input_timers s))
                      (input_calls s ++ [onTyping false])
  else s.

(** [handleSubmit], as the calls it starts on the props. *)
Definition handleSubmit_props (has_onTyping disabled : bool)
    (s : MessageInput) : MessageInput :=
  let message := input_message s in
  if falsy (trim message) || disabled then s
  else
    let trimmedMessage := trim message in
    MkMessageInput []
                   (clearTypingTimeout (input_timers s))
                   (input_calls s
                    ++ (if has_onTyping then [onTyping false] else [])
                    ++ [onSendMessage trimmedMessage]).

(** [handleKeyPress]; [enter] is [e.key === 'Enter']. *)
Definition handleKeyPress (has_onTyping disabled : bool)
    (enter shiftKey : bool) (s : MessageInput) : MessageInput :=
  if enter && negb shiftKey then handleSubmit_props has_onTyping disabled s
  else s.

(** What happens to a mounted [MessageInput]; [disabled] is the prop at
    the render the handler belongs to. *)
Inductive InputEvent :=
  | Change (value : text)
  | TimerFires (id : nat)
  | SubmitForm (disabled : bool)
  | KeyPress (disabled : bool) (enter shiftKey : bool).

Definition input_event (has_onTyping : bool) (ev : InputEvent)
    (s : MessageInput) : MessageInput :=
  match ev with
  | Change value => handleChange has_onTyping value s
  | TimerFires id => timerFires id s
  | SubmitForm disabled => handleSubmit_props has_onTyping disabled s
  | KeyPress disabled enter shiftKey =>
      handleKeyPress has_onTyping disabled enter shiftKey s
  end.

Definition input_events (has_onTyping : bool) (evs : list InputEvent)
    (s : MessageInput) : MessageInput :=
  foldl (fun s ev => input_event has_onTyping ev s) s evs.

(** The argument of the latest [onTyping] call. *)
Definition last_onTyping (calls : list PropCall) : option bool :=
  last (omap (fun c => match c with
                       | onTyping typing => Some typing
                       | onSendMessage _ => None
                       end) calls).

(** ** App.jsx *)

Record profile := Profile {
  profile_id : uuid;
  username : text;
  email : text;
  avatar_url : option text;
  is_online : bool;
  last_seen : timestamptz
}.

(** The state of [ChatApp]. *)
Record ChatApp := MkChatApp {
  app_selectedUser : option profile;
  app_showSidebar : bool
}.

Definition initial_ChatApp : ChatApp := MkChatApp None true.

Definition handleSelectUser (user : profile) (_ : ChatApp) : ChatApp :=
  MkChatApp (Some user) false.

Definition handleBack (_ : ChatApp) : ChatApp := MkChatApp None true.

Inductive AppEvent := SelectUser (user : profile) | Back.

Definition app_event (ev : AppEvent) : ChatApp → ChatApp :=
  match ev with
  | SelectUser user => handleSelectUser user
  | Back => handleBack
  end.

(** A run of events of [ChatApp], from the left. *)
Definition app_events (evs : list AppEvent) (s : ChatApp) : ChatApp :=
  foldl (fun s ev => app_event ev s) s evs.

(** [disabled={!selectedUser}] of [MessageInput], and whether the [main]
    pane is hidden on a narrow screen. *)
Definition inputDisabled (selectedUser : option profile) : bool :=
  match selectedUser with Some _ => false | None => true end.

Definition mainHidden (s : ChatApp) : bool := app_showSidebar s.

(** ** Row-level security (the policies of the migration) *)

(** [EXISTS (SELECT 1 FROM conversations WHERE conversations.id = cid AND
    (participant_1 = auth.uid() OR participant_2 = auth.uid()))] *)
Definition is_participant (uid cid : uuid) (d : Db) : Prop :=
  Exists (fun c => conv_id c = cid ∧ participant_filter uid c) (conversations d).

(** "Users can send messages to their conversations" *)
Definition may_insert_message (uid : uuid) (m : message) (d : Db) : Prop :=
  uid = sender_id m ∧ is_participant uid (conversation_id m) d.

(** "Users can view messages in their conversations" and "Users can
    update their own messages" have the same condition. *)
Definition may_access_message (uid : uuid) (m : message) (d : Db) : Prop :=
  is_participant uid (conversation_id m) d.

(** "Users can create conversations" *)
Definition may_insert_conversation (uid : uuid) (c : conversation) : Prop :=
  participant_filter uid c.

(** ** Relations between stores *)

(** [d'] still holds every message of [d], with the columns that no
    client writes after creation unchanged and a read message still
    read. *)
Definition same_message (m m' : message) : Prop :=
  msg_id m' = msg_id m
  ∧ conversation_id m' = conversation_id m
  ∧ sender_id m' = sender_id m
  ∧ content m' = content m
  ∧ delivered_at m' = delivered_at m
  ∧ created_at m' = created_at m
  ∧ (is_read m = true → is_read m' = true).

Definition keeps_messages (d d' : Db) : Prop :=
  Forall (fun m => Exists (same_message m) (messages d')) (messages d).

(** Every stored message carries a delivery time. *)
Definition delivered (d : Db) : Prop :=
  Forall (fun m => delivered_at m ≠ None) (messages d).

(** The map [fetchUnreadCounts] leaves for user [u] on store [d]. *)
Definition unreadCountsOf (u : uuid) (d : Db) : gmap nat nat :=
  st_unreadCounts (snd (fetchUnreadCounts (Some u) (initial_world d))).

(** ** Auxiliary definitions of the proofs *)

(** The state of a mounted input: at most one timer is armed, it is the
    one the ref names, a timer is armed whenever the latest [onTyping]
    call was [onTyping(true)], and [onSendMessage] was only called with
    trimmed, non-empty text; without the prop [onTyping] no timer is
    armed at all. *)
Definition input_ok (has_onTyping : bool) (s : MessageInput) : Prop :=
  1 ≤ next_timer (input_timers s)
  ∧ (has_onTyping = false →
     pending (input_timers s) = [] ∧ last_onTyping (input_calls s) = None)
  ∧ (pending (input_timers s) = []
     ∨ ∃ i, pending (input_timers s) = [S i]
            ∧ typingTimeoutRef (input_timers s) = Some (S i))
  ∧ (last_onTyping (input_calls s) = Some true → pending (input_timers s) ≠ [])
  ∧ Forall (fun c => ∀ content, c = onSendMessage content →
                                content ≠ [] ∧ trim content = content)
           (input_calls s).

(** The object [counts] after the loop of [fetchUnreadCounts] has
    assigned [counts[k x] = v x] for every [x] of [l] in turn. *)
Definition fill {A} (k v : A → nat) (m : gmap nat nat) (l : list A)
  : gmap nat nat :=
  foldl (fun m x => <[k x := v x]> m) m l.

(** What the loop of [loadMessages] does to one stored message. *)
Fixpoint stamps (clock : nat → timestamptz) (k : nat) (l : list message)
    (m : message) : message :=
  match l with
  | [] => m
  | x :: rest => stamps clock (S k) rest (set_read (clock k) (msg_id x) m)
  end.

(** The read-state invariant of the store. *)
Definition mirrored (d : Db) : Prop := Forall read_mirror (messages d).

(** A computation that keeps an invariant [P] of the store. *)
Definition keeps (P : Db → Prop) {A} (m : Async A) : Prop :=
  ∀ w, P (db w) → P (db (snd (m w))).

(** ** Example data *)

(** A store for the examples: bob (2) has a conversation with alice (1),
    holding three unread messages from alice, one he has read and one of
    his own, and an empty conversation with carol (3). *)
Definition chat_db : Db :=
  MkDb [Conversation 0 1 2 5 20; Conversation 6 3 2 40 40]
       [Message 1 0 1 [72; 105]%N false (Some 10) None 10;
        Message 2 0 2 [72; 111]%N false (Some 12) None 12;
        Message 3 0 1 [63]%N false (Some 11) None 11;
        Message 4 0 1 [72; 101; 121]%N true (Some 9) (Some 15) 9;
        Message 5 0 1 [33]%N false (Some 20) None 20]
       [] 7.

(** Alice opens the chat with bob and sends "Hi"; bob's open window
    receives the INSERT event. *)
Definition greeted_db : Db :=
  MkDb [Conversation 0 1 2 5 8]
       [Message 1 0 1 [72; 105]%N true (Some 7) (Some 9) 8] [] 2.

(** The other participant resolving the same pair first. *)
Definition peer_resolves_first (d : Db) : Db :=
  db (snd (getOrCreateConversation 5 2 1 (initial_world d))).

(** * Proofs *)

(** ** Running the monad *)

(** A handler that only rethrows changes nothing. *)
Lemma try_catch_rethrow {A} (m : Async A) (w : World) :
  try_catch m (fun e => throw e) w = m w.
Proof. unfold try_catch, throw. by destruct (m w) as [[a|e] w']. Qed.

(** ** Rows selected by a key under a unique index *)

Section UniqueKey.
Context {A K : Type} (f : A → K) (k : K).
Context (P : A → Prop) `{!∀ x, Decision (P x)}.
Hypothesis P_key : ∀ x, P x → f x = k.

Lemma filter_unique_key (l : list A) :
  NoDup (f <$> l) → filter P l = [] ∨ ∃ x, filter P l = [x].
Proof.
  induction l as [|x l IH]; [by left|].
  rewrite fmap_cons, NoDup_cons. intros [Hx Hl].
  rewrite filter_cons. destruct (decide (P x)) as [Px|_]; [|by apply IH].
  right. exists x. f_equal.
  destruct (filter P l) as [|y tl] eqn:E; [done|].
  exfalso. apply Hx.
  assert (y ∈ filter P l) as Hy by (rewrite E; left).
  apply list_elem_of_filter in Hy as [Py Hy].
  rewrite (P_key x Px), <- (P_key y Py).
  by apply list_elem_of_fmap_2.
Qed.
End UniqueKey.

Lemma filter_fmap_stable {A} (P : A → Prop) `{!∀ x, Decision (P x)}
    (f : A → A) (l : list A) :
  (∀ x, P (f x) ↔ P x) → filter P (f <$> l) = f <$> filter P l.
Proof.
  intros Hf. induction l as [|x l IH]; [done|].
  rewrite fmap_cons, !filter_cons, IH.
  destruct (decide (P x)) as [Px|Px].
  - rewrite decide_True; [done|]. by apply Hf.
  - rewrite decide_False; [done|]. by rewrite Hf.
Qed.

Lemma filter_nil_key_fresh {A K} (f : A → K) (k : K) (P : A → Prop)
    `{!∀ x, Decision (P x)} (l : list A) :
  (∀ x, f x = k → P x) → filter P l = [] → k ∉ f <$> l.
Proof.
  intros Hk E [x [-> Hx]]%list_elem_of_fmap.
  assert (x ∈ filter P l) as Hin by (apply list_elem_of_filter; auto).
  rewrite E in Hin. by apply not_elem_of_nil in Hin.
Qed.

(** ** The unique index on the participant pair *)

Lemma pair_key_eq (x y a b : uuid) :
  pair_key x y = pair_key a b ↔ (x = a ∧ y = b) ∨ (x = b ∧ y = a).
Proof.
  unfold pair_key. split.
  - intros [= Hmin Hmax]. lia.
  - intros [[-> ->]|[-> ->]]; f_equal; lia.
Qed.

Lemma conv_key_pair_filter (a b : uuid) (c : conversation) :
  conv_key c = pair_key a b ↔ pair_filter a b c.
Proof. apply pair_key_eq. Qed.

Lemma pair_filter_sym (a b : uuid) (c : conversation) :
  pair_filter a b c ↔ pair_filter b a c.
Proof. unfold pair_filter. tauto. Qed.

Lemma filter_pair_sym (a b : uuid) (l : list conversation) :
  filter (pair_filter b a) l = filter (pair_filter a b) l.
Proof. apply list_filter_iff. intros c. apply pair_filter_sym. Qed.

(** ** The conversation resolver *)

Lemma db_set_db (d : Db) (w : World) : db (set_db d w) = d.
Proof. done. Qed.

Lemma insert_conversation_error now p1 p2 d e :
  error (fst (insert_conversation now p1 p2 d)) = Some e →
  insert_conversation now p1 p2 d = (Response None (Some e), d).
Proof.
  unfold insert_conversation.
  repeat case_decide; simpl; intros [= <-]; done.
Qed.

Lemma insert_conversation_ok now p1 p2 d :
  p1 ≠ p2 → pair_key p1 p2 ∉ conv_key <$> conversations d →
  insert_conversation now p1 p2 d =
    (Response (Some [Conversation (uuid_seed d) p1 p2 now now]) None,
     MkDb (conversations d ++ [Conversation (uuid_seed d) p1 p2 now now])
          (messages d) (typing_indicators d) (S (uuid_seed d))).
Proof. intros ??. unfold insert_conversation. by repeat case_decide. Qed.

Lemma resolver_existing interference now user selectedUser w c :
  filter (pair_filter user selectedUser) (conversations (db w)) = [c] →
  getOrCreateConversation_with interference now user selectedUser w
  = (Returned (conv_id c), w).
Proof.
  intros E. unfold getOrCreateConversation_with.
  rewrite try_catch_rethrow. unfold bind, select. by rewrite E.
Qed.

Lemma resolver_insert_ok interference now user selectedUser w :
  filter (pair_filter user selectedUser) (conversations (db w)) = [] →
  user ≠ selectedUser →
  pair_key user selectedUser ∉ conv_key <$> conversations (interference (db w)) →
  let d := interference (db w) in
  getOrCreateConversation_with interference now user selectedUser w
  = (Returned (uuid_seed d),
     set_db (MkDb (conversations d
                   ++ [Conversation (uuid_seed d) user selectedUser now now])
                  (messages d) (typing_indicators d) (S (uuid_seed d))) w).
Proof.
  intros E Hne Hfresh d. unfold getOrCreateConversation_with.
  rewrite try_catch_rethrow. unfold bind, select, interfere, exec, query.
  rewrite E. simpl.
  by rewrite (insert_conversation_ok _ _ _ _ Hne Hfresh).
Qed.

Lemma schema_ok_insert_conversation now p1 p2 d :
  schema_ok d → p1 ≠ p2 → pair_key p1 p2 ∉ conv_key <$> conversations d →
  schema_ok (MkDb (conversations d ++ [Conversation (uuid_seed d) p1 p2 now now])
                  (messages d) (typing_indicators d) (S (uuid_seed d))).
Proof.
  intros [Hpk Hgen Hdiff Hidx Hmpk Hmgen Htpk Htgen Htu] Hne Hfresh.
  split; simpl; try done.
  - rewrite fmap_app. apply NoDup_app. split_and!; [done| |apply NoDup_singleton].
    intros x Hx ->%list_elem_of_singleton. simpl in Hx.
    apply list_elem_of_fmap in Hx as [c [Hc Hin]].
    rewrite Forall_forall in Hgen. specialize (Hgen c Hin). lia.
  - apply Forall_app. split.
    + eapply Forall_impl; [exact Hgen|]. simpl. intros. lia.
    + apply Forall_singleton. simpl. lia.
  - apply Forall_app. split; [done|]. by apply Forall_singleton.
  - rewrite fmap_app. apply NoDup_app. split_and!; [done| |apply NoDup_singleton].
    by intros x Hx ->%list_elem_of_singleton.
  - eapply Forall_impl; [exact Hmgen|]. simpl. intros. lia.
  - eapply Forall_impl; [exact Htgen|]. simpl. intros. lia.
Qed.

Lemma filter_pair_cases (a b : uuid) (d : Db) :
  schema_ok d →
  (filter (pair_filter a b) (conversations d) = []
   ∧ pair_key a b ∉ conv_key <$> conversations d)
  ∨ ∃ c, filter (pair_filter a b) (conversations d) = [c].
Proof.
  intros Hd.
  pose proof (filter_unique_key conv_key (pair_key a b) (pair_filter a b)
                (fun c => proj2 (conv_key_pair_filter a b c)) (conversations d)
                (idx_conversations_participants d Hd)) as [E|E]; [|by right].
  left. split; [done|].
  apply (filter_nil_key_fresh conv_key (pair_key a b) (pair_filter a b)); [|done].
  intros c. apply conv_key_pair_filter.
Qed.

Lemma resolver_stable (a b : uuid) (w : World) (c : conversation) :
  filter (pair_filter a b) (conversations (db w)) = [c] →
  ∀ now, getOrCreateConversation now a b w = (Returned (conv_id c), w)
         ∧ getOrCreateConversation now b a w = (Returned (conv_id c), w).
Proof.
  intros E now. split; apply resolver_existing; [done|].
  by rewrite filter_pair_sym.
Qed.

Lemma resolver_total (a b : uuid) (now : timestamptz) (w : World) :
  schema_ok (db w) → a ≠ b →
  ∃ c w1,
    getOrCreateConversation now a b w = (Returned (conv_id c), w1)
    ∧ schema_ok (db w1)
    ∧ st_conversationId w1 = st_conversationId w
    ∧ filter (pair_filter a b) (conversations (db w1)) = [c].
Proof.
  intros Hd Hne.
  destruct (filter_pair_cases a b (db w) Hd) as [[E Hfresh]|[c E]].
  - eexists (Conversation (uuid_seed (db w)) a b now now), _.
    split; [by apply (resolver_insert_ok (fun d => d))|].
    split; [by apply schema_ok_insert_conversation|].
    split; [done|]. simpl.
    rewrite filter_app, E, filter_cons, filter_nil. simpl.
    rewrite decide_True; [done|]. by left.
  - exists c, w. split; [by apply resolver_existing|done].
Qed.

(** C1 (as amended): when the lookup finds no conversation and the insert
    then fails with a uniqueness violation, because another client's
    writes created the conversation in between, the resolver rethrows
    that error after this single attempt; it does not look up again and
    leaves the store as the other client left it. *)
Theorem getOrCreateConversation_propagates_conflict
    (interference : Db → Db) (now : timestamptz) (user selectedUser : uuid)
    (w : World) :
  filter (pair_filter user selectedUser) (conversations (db w)) = [] →
  error (fst (insert_conversation now user selectedUser (interference (db w))))
    = Some unique_violation →
  getOrCreateConversation_with interference now user selectedUser w
  = (Thrown (PostgrestErr unique_violation), set_db (interference (db w)) w).
Proof.
  intros E He. unfold getOrCreateConversation_with.
  rewrite try_catch_rethrow. unfold bind, select, interfere, exec, query.
  rewrite E. simpl.
  by rewrite (insert_conversation_error _ _ _ _ _ He).
Qed.

Lemma getOrCreateConversation_propagates_conflict_witness :
  getOrCreateConversation_with peer_resolves_first 6 1 2 (initial_world empty_db)
  = (Thrown (PostgrestErr unique_violation),
     set_db (peer_resolves_first empty_db) (initial_world empty_db)).
Proof.
  apply (getOrCreateConversation_propagates_conflict
           peer_resolves_first 6 1 2 (initial_world empty_db));
    reflexivity.
Defined.

(** C1 (as stated) fails: user 1 and user 2 make first contact at the same
    time, user 2's insert lands between user 1's lookup and insert; the
    conversation of the pair then exists with id 0, yet user 1's resolver
    throws the uniqueness violation instead of returning 0. *)
Lemma getOrCreateConversation_conflict_counterexample :
  let r := getOrCreateConversation_with peer_resolves_first 6 1 2
             (initial_world empty_db) in
  conv_id <$> filter (pair_filter 1 2) (conversations (db (snd r))) = [0]
  ∧ fst r = Thrown (PostgrestErr unique_violation)
  ∧ fst r ≠ Returned 0.
Proof. vm_compute. split_and!; done. Qed.

(** C2: on a store that satisfies the schema, resolving a pair of distinct
    users returns a conversation id and leaves a store in which resolving
    the pair again, in either order and at any later time, returns that
    same id and changes nothing; exactly one conversation of the pair
    exists. *)
Theorem getOrCreateConversation_symmetric_idempotent
    (a b : uuid) (now : timestamptz) (w : World) :
  schema_ok (db w) → a ≠ b →
  ∃ cid w1,
    getOrCreateConversation now a b w = (Returned cid, w1)
    ∧ schema_ok (db w1)
    ∧ (∀ now', getOrCreateConversation now' b a w1 = (Returned cid, w1))
    ∧ (∀ now', getOrCreateConversation now' a b w1 = (Returned cid, w1))
    ∧ conv_id <$> filter (pair_filter a b) (conversations (db w1)) = [cid]
    ∧ conv_id <$> filter (pair_filter b a) (conversations (db w1)) = [cid].
Proof.
  intros Hd Hne.
  destruct (resolver_total a b now w Hd Hne) as (c & w1 & Hrun & Hd1 & _ & E).
  exists (conv_id c), w1. split_and!; try done.
  - intros now'. apply (resolver_stable a b w1 c E now').
  - intros now'. apply (resolver_stable a b w1 c E now').
  - by rewrite E.
  - by rewrite filter_pair_sym, E.
Qed.

Lemma schema_ok_empty : schema_ok empty_db.
Proof. split; simpl; constructor. Qed.

Lemma getOrCreateConversation_symmetric_idempotent_witness :
  ∃ cid w1,
    getOrCreateConversation 5 1 2 (initial_world empty_db) = (Returned cid, w1)
    ∧ schema_ok (db w1)
    ∧ (∀ now', getOrCreateConversation now' 2 1 w1 = (Returned cid, w1))
    ∧ (∀ now', getOrCreateConversation now' 1 2 w1 = (Returned cid, w1))
    ∧ conv_id <$> filter (pair_filter 1 2) (conversations (db w1)) = [cid]
    ∧ conv_id <$> filter (pair_filter 2 1) (conversations (db w1)) = [cid].
Proof.
  apply (getOrCreateConversation_symmetric_idempotent 1 2 5
           (initial_world empty_db)).
  - apply schema_ok_empty.
  - lia.
Defined.

(** ** Marking a message read *)


Lemma markMessageAsRead_run (t : timestamptz) (mid : uuid) (w : World) :
  markMessageAsRead t mid w = (Returned tt, set_db (update_message_read t mid (db w)) w).
Proof. done. Qed.





(** ** The handlers of the message feed *)

(** C6 (as amended): the INSERT handler always appends the event's
    message and the UPDATE handler replaces in place every local entry
    with the event's id. This is the merge-by-id rule when an INSERT
    carries an id that is absent locally and when an UPDATE carries an id
    that is present; an INSERT of a present id appends a duplicate, and
    an UPDATE of an absent id leaves the list as it is. *)
Theorem messagesChannel_reconciliation
    (now : timestamptz) (user : uuid) (ev : ChangeEvent) (w : World) :
  let local := st_messages w in
  let present := bool_decide (msg_id (payload_new ev) ∈ msg_id <$> local) in
  st_messages (snd (messagesChannel now user ev w)) =
    match ev, present with
    | INSERT new, false => merge_by_id new local
    | INSERT new, true => local ++ [new]
    | UPDATE new, true => merge_by_id new local
    | UPDATE new, false => local
    end.
Proof.
  destruct ev as [new|new]; simpl; unfold merge_by_id.
  - unfold onInsert, bind. simpl.
    case_bool_decide; by repeat case_decide.
  - case_bool_decide as Hin.
    + by rewrite decide_True.
    + rewrite <- (list_fmap_id (st_messages w)) at 2.
      apply list_fmap_ext. intros i m Hm. simpl.
      rewrite decide_False; [done|].
      intros E. apply Hin. rewrite <- E.
      apply list_elem_of_fmap_2. by eapply list_elem_of_lookup_2.
Qed.

(** C6 (as stated) fails: an INSERT event whose id is present locally is
    appended, not replaced in place, and an UPDATE event whose id is
    absent locally is dropped, not appended. *)
Lemma messagesChannel_not_merge_by_id :
  let old := Message 1 0 2 [72; 105]%N false (Some 7) None 8 in
  let new := Message 1 0 2 [72; 105]%N true (Some 7) (Some 9) 8 in
  let w := MkWorld empty_db [old] (Some 0) false false ∅ [] in
  let w' := MkWorld empty_db [] (Some 0) false false ∅ [] in
  st_messages (snd (messagesChannel 9 1 (INSERT new) w)) = [old; new]
  ∧ merge_by_id new (st_messages w) = [new]
  ∧ st_messages (snd (messagesChannel 9 1 (UPDATE new) w')) = []
  ∧ merge_by_id new (st_messages w') = [new].
Proof. vm_compute. split_and!; done. Qed.

Lemma set_read_stamps (t : timestamptz) (mid : uuid) (l : list message) :
  (∀ m, m ∈ l → msg_id m = mid →
        Message (msg_id m) (conversation_id m) (sender_id m) (content m)
                true (delivered_at m) (Some t) (created_at m)
        ∈ set_read t mid <$> l)
  ∧ Forall (λ m', msg_id m' = mid → is_read m' = true ∧ read_at m' = Some t)
           (set_read t mid <$> l)
  ∧ filter (λ m, msg_id m ≠ mid) (set_read t mid <$> l)
    = filter (λ m, msg_id m ≠ mid) l.
Proof.
  split_and!.
  - intros m Hm E. apply list_elem_of_fmap. exists m. split; [|done].
    unfold set_read. by rewrite decide_True.
  - apply Forall_fmap, Forall_forall. intros m _. simpl. unfold set_read.
    case_decide; simpl; intros ?; [by split|done].
  - induction l as [|m l IH]; [done|]. rewrite fmap_cons, !filter_cons, IH.
    unfold set_read. destruct (decide (msg_id m = mid)) as [E|E]; simpl.
    + by rewrite !decide_False by (intros H; by apply H).
    + by rewrite !decide_True.
Qed.

(** C10: an INSERT event appends its message to the local list and, when
    the message was sent by the peer, runs [markMessageAsRead] on its id:
    every stored message with that id ends with [is_read = true] and
    [read_at] set to the time of the call, its other columns and every
    other message unchanged. An INSERT event for the current user's own
    message leaves the store untouched. *)
Theorem onInsert_marks_peer_message
    (now : timestamptz) (user : uuid) (new : message) (w : World) :
  let w' := snd (messagesChannel now user (INSERT new) w) in
  st_messages w' = st_messages w ++ [new]
  ∧ db w' = (if decide (sender_id new ≠ user)
             then db (snd (markMessageAsRead now (msg_id new) w))
             else db w)
  ∧ messages (db w') = (if decide (sender_id new ≠ user)
                        then set_read now (msg_id new) <$> messages (db w)
                        else messages (db w))
  ∧ (sender_id new ≠ user →
     (∀ m, m ∈ messages (db w) → msg_id m = msg_id new →
           Message (msg_id m) (conversation_id m) (sender_id m) (content m)
                   true (delivered_at m) (Some now) (created_at m)
           ∈ messages (db w'))
     ∧ Forall (λ m', msg_id m' = msg_id new →
                     is_read m' = true ∧ read_at m' = Some now)
              (messages (db w'))
     ∧ filter (λ m, msg_id m ≠ msg_id new) (messages (db w'))
       = filter (λ m, msg_id m ≠ msg_id new) (messages (db w))
     ∧ conversations (db w') = conversations (db w)
     ∧ typing_indicators (db w') = typing_indicators (db w))
  ∧ (sender_id new = user → db w' = db w).
Proof.
  simpl. unfold onInsert, bind. simpl.
  destruct (decide (sender_id new ≠ user)) as [Hp|Hp]; simpl.
  - split_and!; try done.
    intros _. pose proof (set_read_stamps now (msg_id new) (messages (db w)))
      as (H1 & H2 & H3). by split_and!.
  - split_and!; done.
Qed.

(** C10 at work: user 2 has the conversation with user 1 open when user 1's
    message [Hi] arrives; the stored row ends read, stamped with the time
    of the event. *)
Lemma onInsert_marks_peer_message_witness :
  let hi := Message 1 0 1 [72; 105]%N false (Some 7) None 8 in
  let w := initial_world (MkDb [Conversation 0 1 2 5 8] [hi] [] 2) in
  messages (db (snd (messagesChannel 20 2 (INSERT hi) w)))
  = [Message 1 0 1 [72; 105]%N true (Some 7) (Some 20) 8].
Proof.
  intros hi w.
  destruct (onInsert_marks_peer_message 20 2 hi w) as (_ & _ & _ & H & _).
  destruct (H ltac:(by intros ?)) as (H1 & _).
  specialize (H1 hi ltac:(by apply list_elem_of_here) eq_refl).
  simpl in H1 |- *. reflexivity.
Defined.

(** ** The typing indicator *)

Lemma updateTypingIndicator_run date now user typing w c :
  st_conversationId w = Some c →
  updateTypingIndicator date now user typing w =
    (Returned tt,
     set_db (match data (maybeSingle (filter (typing_filter c user)
                                             (typing_indicators (db w)))) with
             | Some existing => update_typing typing date (ti_id existing) (db w)
             | None => snd (insert_typing now c user typing (db w))
             end) w).
Proof.
  intros Hc. unfold updateTypingIndicator, bind, conversationId. rewrite Hc.
  unfold try_catch, bind, select, exec, query.
  destruct (data _) as [existing|]; [done|].
  by destruct (insert_typing now c user typing (db w)).
Qed.

Lemma updateTypingIndicator_closed date now user typing w :
  st_conversationId w = None →
  updateTypingIndicator date now user typing w = (Returned tt, w).
Proof.
  intros Hc. unfold updateTypingIndicator, bind, conversationId. by rewrite Hc.
Qed.

Lemma typing_key_set_typing b t tid (l : list typing_indicator) :
  typing_key <$> (set_typing b t tid <$> l) = typing_key <$> l.
Proof.
  rewrite <- list_fmap_compose. apply list_fmap_ext.
  intros i r _. simpl. unfold set_typing. by case_decide.
Qed.

Lemma ti_id_set_typing b t tid (l : list typing_indicator) :
  ti_id <$> (set_typing b t tid <$> l) = ti_id <$> l.
Proof.
  rewrite <- list_fmap_compose. apply list_fmap_ext.
  intros i r _. simpl. unfold set_typing. by case_decide.
Qed.

Lemma filter_typing_set_typing c u b t tid (l : list typing_indicator) :
  filter (typing_filter c u) (set_typing b t tid <$> l)
  = set_typing b t tid <$> filter (typing_filter c u) l.
Proof.
  apply filter_fmap_stable.
  intros r. unfold typing_filter, set_typing. by case_decide.
Qed.

Lemma typing_key_filter c u (r : typing_indicator) :
  typing_key r = (c, u) ↔ typing_filter c u r.
Proof.
  unfold typing_key, typing_filter. split; [by intros [= -> ->]|by intros [-> ->]].
Qed.

Lemma schema_ok_update_typing b t tid d :
  schema_ok d → schema_ok (update_typing b t tid d).
Proof.
  intros [Hpk Hgen Hdiff Hidx Hmpk Hmgen Htpk Htgen Htu].
  split; simpl; try done.
  - by rewrite ti_id_set_typing.
  - apply Forall_fmap. eapply Forall_impl; [exact Htgen|].
    intros r. simpl. unfold set_typing. by case_decide.
  - by rewrite typing_key_set_typing.
Qed.

Lemma insert_typing_fresh now c u b d :
  (c, u) ∉ typing_key <$> typing_indicators d →
  snd (insert_typing now c u b d) =
    MkDb (conversations d) (messages d)
         (typing_indicators d ++ [TypingIndicator (uuid_seed d) c u b now])
         (S (uuid_seed d)).
Proof. intros Hfresh. unfold insert_typing. by rewrite decide_False. Qed.

Lemma schema_ok_insert_typing now c u b d :
  schema_ok d → (c, u) ∉ typing_key <$> typing_indicators d →
  schema_ok (MkDb (conversations d) (messages d)
                  (typing_indicators d ++ [TypingIndicator (uuid_seed d) c u b now])
                  (S (uuid_seed d))).
Proof.
  intros [Hpk Hgen Hdiff Hidx Hmpk Hmgen Htpk Htgen Htu] Hfresh.
  split; simpl; try done.
  - eapply Forall_impl; [exact Hgen|]. simpl. intros. lia.
  - eapply Forall_impl; [exact Hmgen|]. simpl. intros. lia.
  - rewrite fmap_app. apply NoDup_app. split_and!; [done| |apply NoDup_singleton].
    intros x Hx ->%list_elem_of_singleton. simpl in Hx.
    apply list_elem_of_fmap in Hx as [r [Hr Hin]].
    rewrite Forall_forall in Htgen. specialize (Htgen r Hin). lia.
  - apply Forall_app. split.
    + eapply Forall_impl; [exact Htgen|]. simpl. intros. lia.
    + apply Forall_singleton. simpl. lia.
  - rewrite fmap_app. apply NoDup_app. split_and!; [done| |apply NoDup_singleton].
    by intros x Hx ->%list_elem_of_singleton.
Qed.

Lemma updateTypingIndicator_step date now user typing w c :
  schema_ok (db w) → st_conversationId w = Some c →
  let w' := snd (updateTypingIndicator date now user typing w) in
  schema_ok (db w')
  ∧ st_conversationId w' = Some c
  ∧ (∃ t, filter (typing_filter c user) (typing_indicators (db w')) = [t]
          ∧ is_typing t = typing)
  ∧ length (typing_indicators (db w'))
    = length (typing_indicators (db w))
      + match filter (typing_filter c user) (typing_indicators (db w)) with
        | [] => 1
        | _ => 0
        end.
Proof.
  intros Hd Hc. rewrite (updateTypingIndicator_run _ _ _ _ _ _ Hc). simpl.
  pose proof (filter_unique_key typing_key (c, user) (typing_filter c user)
                (fun r => proj2 (typing_key_filter c user r))
                (typing_indicators (db w)) (typing_unique _ Hd)) as [E|[t E]].
  - assert ((c, user) ∉ typing_key <$> typing_indicators (db w)) as Hfresh.
    { apply (filter_nil_key_fresh typing_key (c, user) (typing_filter c user));
        [|done]. intros r. apply typing_key_filter. }
    rewrite E. simpl. rewrite (insert_typing_fresh _ _ _ _ _ Hfresh).
    split_and!; [by apply schema_ok_insert_typing|done| |]; simpl.
    + eexists. rewrite filter_app, E, filter_cons, filter_nil. simpl.
      rewrite decide_True by done. done.
    + by rewrite length_app.
  - rewrite E. simpl.
    split_and!; [by apply schema_ok_update_typing|done| |]; simpl.
    + eexists. rewrite filter_typing_set_typing, E. simpl.
      unfold set_typing. rewrite decide_True by done. done.
    + rewrite length_fmap. lia.
Qed.

Lemma setTyping_calls_snoc user calls date now typing w :
  setTyping_calls user (calls ++ [(date, now, typing)]) w
  = snd (updateTypingIndicator date now user typing (setTyping_calls user calls w)).
Proof. unfold setTyping_calls. by rewrite foldl_app. Qed.

Lemma setTyping_calls_spec user calls date now typing w c :
  schema_ok (db w) → st_conversationId w = Some c →
  let w' := setTyping_calls user (calls ++ [(date, now, typing)]) w in
  schema_ok (db w')
  ∧ st_conversationId w' = Some c
  ∧ (∃ t, filter (typing_filter c user) (typing_indicators (db w')) = [t]
          ∧ is_typing t = typing)
  ∧ length (typing_indicators (db w'))
    = length (typing_indicators (db w))
      + match filter (typing_filter c user) (typing_indicators (db w)) with
        | [] => 1
        | _ => 0
        end.
Proof.
  intros Hd Hc. revert date now typing.
  induction calls as [|[[date' now'] typing'] calls IH] using rev_ind;
    intros date now typing w'; subst w'.
  - rewrite setTyping_calls_snoc. by apply updateTypingIndicator_step.
  - rewrite setTyping_calls_snoc.
    destruct (IH date' now' typing') as (Hd' & Hc' & [t [Et _]] & Hlen).
    destruct (updateTypingIndicator_step date now user typing _ c Hd' Hc')
      as (? & ? & ? & Hlen').
    split_and!; try done.
    rewrite Hlen', Et, Hlen. lia.
Qed.

(** C7: on a store that satisfies the schema and with a conversation
    open, after any non-empty sequence of [updateTypingIndicator] calls
    by a user exactly one typing-indicator row exists for that
    (conversation, user) pair, and its [is_typing] is the value of the
    last call; the table has grown by one row when the pair had none
    before the calls, and not at all when it had one. *)
Theorem updateTypingIndicator_upsert
    (user c : uuid) (calls : list (timestamptz * timestamptz * bool))
    (date now : timestamptz) (typing : bool) (w : World) :
  schema_ok (db w) → st_conversationId w = Some c →
  last calls = Some (date, now, typing) →
  let w' := setTyping_calls user calls w in
  (∃ t, filter (typing_filter c user) (typing_indicators (db w')) = [t]
        ∧ is_typing t = typing)
  ∧ length (typing_indicators (db w'))
    = length (typing_indicators (db w))
      + match filter (typing_filter c user) (typing_indicators (db w)) with
        | [] => 1
        | _ => 0
        end.
Proof.
  intros Hd Hc [calls' ->]%last_Some.
  destruct (setTyping_calls_spec user calls' date now typing w c Hd Hc)
    as (_ & _ & Ht & Hlen). done.
Qed.

(** The scenario of the specification: [true], then [false] twice. *)
Lemma updateTypingIndicator_upsert_witness :
  let w := MkWorld (MkDb [Conversation 0 1 2 5 5] [] [] 1)
                   [] (Some 0) false false ∅ [] in
  let w' := setTyping_calls 1
              [(10, 11, true); (12, 13, false); (14, 15, false)] w in
  (∃ t, filter (typing_filter 0 1) (typing_indicators (db w')) = [t]
        ∧ is_typing t = false)
  ∧ length (typing_indicators (db w')) = 0 + 1.
Proof.
  apply (updateTypingIndicator_upsert 1 0
           [(10, 11, true); (12, 13, false); (14, 15, false)] 14 15 false).
  - split; simpl; apply (bool_decide_unpack _); by vm_compute.
  - reflexivity.
  - reflexivity.
Defined.

(** ** Sending a message *)

Lemma trimStart_idem (s : text) : trimStart (trimStart s) = trimStart s.
Proof.
  induction s as [|c s IH]; [done|]. simpl.
  destruct (is_white_space c) eqn:E; [done|]. simpl. by rewrite E.
Qed.

Lemma trimStart_keep (c : N) (s : text) :
  is_white_space c = false → trimStart (c :: s) = c :: s.
Proof. intros E. simpl. by rewrite E. Qed.

Lemma trimStart_head (s : text) (c : N) (t : text) :
  trimStart s = c :: t → is_white_space c = false.
Proof.
  induction s as [|x s IH]; [done|]. simpl.
  destruct (is_white_space x) eqn:E; [done|]. by intros [= <- _].
Qed.

Lemma trimStart_snoc_keep (s : text) (c : N) :
  is_white_space c = false → trimStart (s ++ [c]) = trimStart s ++ [c].
Proof.
  intros E. induction s as [|x s IH]; simpl.
  - by rewrite E.
  - by destruct (is_white_space x).
Qed.

Lemma trim_idem (s : text) : trim (trim s) = trim s.
Proof.
  unfold trim, trimEnd.
  assert (trimStart (rev (trimStart (rev (trimStart s))))
          = rev (trimStart (rev (trimStart s)))) as ->.
  { destruct (trimStart s) as [|c t] eqn:E; [done|].
    pose proof (trimStart_head _ _ _ E) as Hc. simpl.
    rewrite (trimStart_snoc_keep _ _ Hc), rev_app_distr. simpl.
    by apply trimStart_keep. }
  by rewrite rev_involutive, trimStart_idem.
Qed.

Lemma falsy_false (s : text) : s ≠ [] → falsy s = false.
Proof. by destruct s. Qed.

Lemma handleSendMessage_blank date now user content w :
  trim content = [] → handleSendMessage date now user content w = (Returned tt, w).
Proof.
  intros E. unfold handleSendMessage, bind, conversationId. rewrite E.
  by destruct (st_conversationId w).
Qed.

Lemma handleSendMessage_sent date now user content w c :
  trim content ≠ [] → st_conversationId w = Some c →
  handleSendMessage date now user content w =
    (Returned tt,
     set_db (snd (insert_message now c user (trim content) date (db w))) w).
Proof.
  intros E Hc. unfold handleSendMessage, bind, conversationId.
  rewrite Hc, (falsy_false _ E). unfold try_catch, bind, query, insert_message.
  by destruct (storable (trim content)).
Qed.

Lemma handleSendMessage_no_conversation date now user content w :
  st_conversationId w = None →
  handleSendMessage date now user content w = (Returned tt, w).
Proof.
  intros Hc. unfold handleSendMessage, bind, conversationId. by rewrite Hc.
Qed.

Lemma insert_message_messages now c u body date d :
  messages (snd (insert_message now c u body date d)) =
    if storable body
    then messages d ++ [Message (uuid_seed d) c u body false (Some date) None now]
    else messages d.
Proof. unfold insert_message. by destruct (storable body). Qed.

Lemma handleSubmit_sends date now user disabled w :
  falsy (trim (st_message w)) || disabled = false →
  ∃ w', handleSubmit date now user disabled w = (Returned tt, w')
        ∧ match st_conversationId w with
          | Some c =>
              ∃ mid, messages (db w') =
                       if storable (trim (st_message w))
                       then messages (db w)
                            ++ [Message mid c user (trim (st_message w)) false
                                        (Some date) None now]
                       else messages (db w)
          | None => messages (db w') = messages (db w)
          end.
Proof.
  intros Hguard. unfold handleSubmit. rewrite Hguard.
  apply orb_false_elim in Hguard as [E _].
  assert (trim (st_message w) ≠ []) as Hne by by destruct (trim (st_message w)).
  unfold bind at 1. unfold setMessage at 1.
  set (w1 := MkWorld _ _ _ _ _ _ _).
  destruct (st_conversationId w) as [c|] eqn:Hc.
  - assert (st_conversationId w1 = Some c) as Hc1 by done.
    unfold bind. rewrite (updateTypingIndicator_run _ _ _ _ _ _ Hc1).
    set (w2 := set_db _ w1).
    assert (messages (db w2) = messages (db w)) as Hm.
    { subst w2. simpl. destruct (data _); [done|].
      unfold insert_typing. by case_decide. }
    assert (trim (trim (st_message w)) ≠ []) as E' by by rewrite trim_idem.
    rewrite (handleSendMessage_sent _ _ _ _ w2 c E' Hc1).
    eexists. split; [done|]. exists (uuid_seed (db w2)).
    by rewrite db_set_db, insert_message_messages, Hm, trim_idem.
  - assert (st_conversationId w1 = None) as Hc1 by done.
    unfold bind. rewrite updateTypingIndicator_closed by done.
    rewrite handleSendMessage_no_conversation by done.
    by eexists.
Qed.

(** C8 (as amended): for content that is empty after trimming,
    [handleSendMessage] and [handleSubmit] return normally, without an
    error, and leave the store and the component state as they were; for
    any content they return normally, and a message they persist is
    unread and carries the trimmed, non-blank content and [delivered_at]
    set to the client's time of the call. (The message is persisted when
    the content is not blank, a conversation is open and the column
    [content text] can hold the trimmed content; when the column cannot
    hold it the store refuses the row, and [handleSendMessage] swallows
    the error and returns with the store unchanged.) *)
Theorem handleSendMessage_blank_or_persisted
    (date now : timestamptz) (user : uuid) (content : text) (w : World) :
  (trim content = [] →
   handleSendMessage date now user content w = (Returned tt, w))
  ∧ (trim (st_message w) = [] → ∀ disabled,
     handleSubmit date now user disabled w = (Returned tt, w))
  ∧ (∃ w', handleSendMessage date now user content w = (Returned tt, w')
           ∧ (messages (db w') = messages (db w)
              ∨ ∃ c, st_conversationId w = Some c
                     ∧ trim content ≠ []
                     ∧ messages (db w') =
                         messages (db w)
                         ++ [Message (uuid_seed (db w)) c user (trim content)
                                     false (Some date) None now]))
  ∧ (∀ disabled,
     ∃ w', handleSubmit date now user disabled w = (Returned tt, w')
           ∧ (messages (db w') = messages (db w)
              ∨ ∃ c mid, st_conversationId w = Some c
                         ∧ trim (st_message w) ≠ []
                         ∧ messages (db w') =
                             messages (db w)
                             ++ [Message mid c user (trim (st_message w))
                                         false (Some date) None now]))
  ∧ (trim content ≠ [] → storable (trim content) = true →
     ∀ c, st_conversationId w = Some c →
     messages (db (snd (handleSendMessage date now user content w))) =
       messages (db w)
       ++ [Message (uuid_seed (db w)) c user (trim content) false
                   (Some date) None now])
  ∧ (trim (st_message w) ≠ [] → storable (trim (st_message w)) = true →
     ∀ c, st_conversationId w = Some c →
     ∃ mid, messages (db (snd (handleSubmit date now user false w))) =
              messages (db w)
              ++ [Message mid c user (trim (st_message w)) false
                          (Some date) None now])
  ∧ (storable (trim content) = false →
     fst (handleSendMessage date now user content w) = Returned tt
     ∧ db (snd (handleSendMessage date now user content w)) = db w).
Proof.
  split_and!.
  - apply handleSendMessage_blank.
  - intros E disabled. unfold handleSubmit. by rewrite E.
  - destruct (decide (trim content = [])) as [E|E].
    { exists w. split; [by apply handleSendMessage_blank|by left]. }
    destruct (st_conversationId w) as [c|] eqn:Hc.
    + eexists. split; [by apply handleSendMessage_sent|].
      rewrite db_set_db, insert_message_messages.
      destruct (storable (trim content)); [|by left].
      right. by exists c.
    + exists w. split; [by apply handleSendMessage_no_conversation|by left].
  - intros disabled.
    destruct (falsy (trim (st_message w)) || disabled) eqn:Hguard.
    { exists w. split; [|by left]. unfold handleSubmit. by rewrite Hguard. }
    destruct (handleSubmit_sends date now user disabled w Hguard)
      as (w' & Hrun & Hm).
    exists w'. split; [done|].
    apply orb_false_elim in Hguard as [E _].
    destruct (st_conversationId w) as [c|]; [|by left].
    destruct Hm as [mid Hm]. destruct (storable (trim (st_message w))); [|by left].
    right. exists c, mid. split_and!; [done| |done].
    by destruct (trim (st_message w)).
  - intros E Hs c Hc. rewrite (handleSendMessage_sent _ _ _ _ _ _ E Hc).
    cbn [snd]. by rewrite db_set_db, insert_message_messages, Hs.
  - intros E Hs c Hc.
    destruct (handleSubmit_sends date now user false w) as (w' & Hrun & Hm).
    { by rewrite (falsy_false _ E). }
    rewrite Hrun, Hc, Hs in *. simpl. done.
  - intros Hns. destruct (decide (trim content = [])) as [E|E].
    { by rewrite handleSendMessage_blank. }
    destruct (st_conversationId w) as [c|] eqn:Hc.
    + rewrite (handleSendMessage_sent _ _ _ _ _ _ E Hc). cbn [fst snd].
      rewrite db_set_db. unfold insert_message. by rewrite Hns.
    + by rewrite handleSendMessage_no_conversation.
Qed.

Lemma handleSendMessage_blank_or_persisted_witness :
  let w := MkWorld (MkDb [Conversation 0 1 2 5 5] [] [] 1)
                   [] (Some 0) false false ∅ [32; 72; 105; 10]%N in
  handleSendMessage 7 8 1 [32; 9; 10; 160]%N w = (Returned tt, w)
  ∧ messages (db (snd (handleSendMessage 7 8 1 [32; 72; 105; 10]%N w))) =
      [Message 1 0 1 [72; 105]%N false (Some 7) None 8].
Proof.
  intros w. split.
  - apply (handleSendMessage_blank_or_persisted 7 8 1 [32; 9; 10; 160]%N w).
    reflexivity.
  - apply (proj1 (proj2 (proj2 (proj2 (proj2
             (handleSendMessage_blank_or_persisted 7 8 1 [32; 72; 105; 10]%N w)))))).
    + discriminate.
    + reflexivity.
    + reflexivity.
Defined.

(** C8 (as stated) fails: sending whitespace-only content does not fail
    with a validation error, or with any error; the call returns. *)
Lemma handleSendMessage_blank_returns :
  let w := MkWorld (MkDb [Conversation 0 1 2 5 5] [] [] 1)
                   [] (Some 0) false false ∅ [32; 9]%N in
  trim [32; 9; 10; 160]%N = []
  ∧ ¬ fails (handleSendMessage 7 8 1 [32; 9; 10; 160]%N w)
  ∧ ¬ fails (handleSubmit 7 8 1 false w).
Proof.
  split_and!; [done| |]; intros [e He]; vm_compute in He; discriminate.
Qed.

(** ** The unread aggregator *)

Section FoldInsert.
Context {A : Type} (k : A → nat) (v : A → nat).

Lemma fill_lookup_other (l : list A) (m : gmap nat nat) (i : nat) :
  i ∉ k <$> l → fill k v m l !! i = m !! i.
Proof.
  revert m. induction l as [|x l IH]; intros m Hi; [done|].
  rewrite fmap_cons, not_elem_of_cons in Hi. destruct Hi as [Hx Hl].
  simpl. rewrite IH by done. by rewrite lookup_insert_ne.
Qed.

Lemma fill_lookup (l : list A) (m : gmap nat nat) (x : A) :
  NoDup (k <$> l) → x ∈ l → fill k v m l !! k x = Some (v x).
Proof.
  revert m. induction l as [|y l IH]; intros m Hnd Hx.
  - by apply not_elem_of_nil in Hx.
  - rewrite fmap_cons, NoDup_cons in Hnd. destruct Hnd as [Hy Hnd].
    simpl. apply elem_of_cons in Hx as [->|Hx].
    + rewrite fill_lookup_other by done. by rewrite lookup_insert_eq.
    + by apply IH.
Qed.

Lemma fill_dom (l : list A) (m : gmap nat nat) :
  dom (fill k v m l) = dom m ∪ list_to_set (k <$> l).
Proof.
  revert m. induction l as [|x l IH]; intros m; simpl.
  - by rewrite (right_id_L ∅ (∪)).
  - rewrite IH, dom_insert_L, (comm_L (∪) {[k x]} (dom m)).
    by rewrite (assoc_L (∪)).
Qed.
End FoldInsert.

Lemma countEach_run (u : uuid) (convs : list conversation)
    (counts : gmap nat nat) (w : World) :
  countEach u convs counts w =
    (Returned
       (fill (otherUserId u)
             (fun conv => length (filter (unread_for (conv_id conv) u)
                                         (messages (db w))))
             counts convs), w).
Proof.
  revert counts. induction convs as [|conv convs IH]; intros counts; [done|].
  simpl. unfold bind, select. simpl. by rewrite IH.
Qed.

Lemma fetchUnreadCounts_run (u : uuid) (w : World) :
  fetchUnreadCounts (Some u) w =
    setUnreadCounts
      (fill (otherUserId u)
            (fun conv => length (filter (unread_for (conv_id conv) u)
                                        (messages (db w))))
            ∅ (filter (participant_filter u) (conversations (db w)))) w.
Proof.
  unfold fetchUnreadCounts, try_catch, bind, select. simpl.
  by rewrite countEach_run.
Qed.

Lemma conv_key_other (u : uuid) (c : conversation) :
  participant_filter u c → conv_key c = pair_key u (otherUserId u c).
Proof.
  unfold participant_filter, conv_key, otherUserId, pair_key.
  intros Hu. case_decide; f_equal; lia.
Qed.

Lemma NoDup_fmap_elem_inj {A K} (f : A → K) (l : list A) (x y : A) :
  NoDup (f <$> l) → x ∈ l → y ∈ l → f x = f y → x = y.
Proof.
  induction l as [|z l IH]; intros Hnd Hx Hy E.
  - by apply not_elem_of_nil in Hx.
  - rewrite fmap_cons, NoDup_cons in Hnd. destruct Hnd as [Hz Hnd].
    apply elem_of_cons in Hx as [->|Hx]; apply elem_of_cons in Hy as [->|Hy].
    + done.
    + exfalso. apply Hz. rewrite E. by apply list_elem_of_fmap_2.
    + exfalso. apply Hz. rewrite <- E. by apply list_elem_of_fmap_2.
    + by apply IH.
Qed.

Lemma peers_unique (u : uuid) (d : Db) :
  schema_ok d →
  NoDup (otherUserId u <$> filter (participant_filter u) (conversations d)).
Proof.
  intros Hd. apply NoDup_fmap_2_strong.
  - intros x y [Hx Hxin]%list_elem_of_filter [Hy Hyin]%list_elem_of_filter E.
    apply (NoDup_fmap_elem_inj conv_key (conversations d)); try done.
    + apply Hd.
    + by rewrite (conv_key_other u x Hx), (conv_key_other u y Hy), E.
  - apply NoDup_filter. eapply NoDup_fmap_1. apply (conv_pkey _ Hd).
Qed.

Lemma fetchUnreadCounts_lookup (u : uuid) (w : World) (conv : conversation) :
  schema_ok (db w) → conv ∈ conversations (db w) → participant_filter u conv →
  st_unreadCounts (snd (fetchUnreadCounts (Some u) w)) !! otherUserId u conv
  = Some (length (filter (unread_for (conv_id conv) u) (messages (db w)))).
Proof.
  intros Hd Hin Hu. rewrite fetchUnreadCounts_run. simpl.
  apply (fill_lookup (otherUserId u)
           (fun conv => length (filter (unread_for (conv_id conv) u)
                                       (messages (db w))))).
  - by apply peers_unique.
  - by apply list_elem_of_filter.
Qed.


(** ** Loading the history *)

Lemma msg_id_set_read t mid m : msg_id (set_read t mid m) = msg_id m.
Proof. unfold set_read. by case_decide. Qed.

Lemma set_read_other t mid m : msg_id m ≠ mid → set_read t mid m = m.
Proof. intros. unfold set_read. by rewrite decide_False. Qed.

Lemma set_read_self t m :
  set_read t (msg_id m) m =
    Message (msg_id m) (conversation_id m) (sender_id m) (content m)
            true (delivered_at m) (Some t) (created_at m).
Proof. unfold set_read. by rewrite decide_True. Qed.

Lemma msg_id_stamps clock k l m : msg_id (stamps clock k l m) = msg_id m.
Proof.
  revert k m. induction l as [|x l IH]; intros k m; [done|].
  simpl. by rewrite IH, msg_id_set_read.
Qed.

Lemma stamps_absent clock k l m :
  msg_id m ∉ msg_id <$> l → stamps clock k l m = m.
Proof.
  revert k. induction l as [|x l IH]; intros k Hm; [done|].
  rewrite fmap_cons, not_elem_of_cons in Hm. destruct Hm as [Hx Hl].
  simpl. rewrite set_read_other by done. by apply IH.
Qed.

Lemma stamps_at clock k l i x m :
  NoDup (msg_id <$> l) → l !! i = Some x → msg_id m = msg_id x →
  stamps clock k l m = set_read (clock (k + i)) (msg_id m) m.
Proof.
  revert k i. induction l as [|y l IH]; intros k i Hnd Hi E; [done|].
  rewrite fmap_cons, NoDup_cons in Hnd. destruct Hnd as [Hy Hnd].
  destruct i as [|i]; simpl in *.
  - injection Hi as ->. rewrite Nat.add_0_r, <- E.
    apply stamps_absent. by rewrite msg_id_set_read, E.
  - rewrite set_read_other.
    + rewrite (IH (S k) i) by done. f_equal. f_equal. lia.
    + intros E'. apply Hy. rewrite <- E', E.
      apply list_elem_of_fmap_2. by eapply list_elem_of_lookup_2.
Qed.

Lemma markEach_run clock k l w :
  markEach clock k l w =
    (Returned tt,
     set_db (MkDb (conversations (db w)) (stamps clock k l <$> messages (db w))
                  (typing_indicators (db w)) (uuid_seed (db w))) w).
Proof.
  revert k w. induction l as [|x l IH]; intros k w.
  - simpl. unfold ret. f_equal. rewrite list_fmap_id.
    by destruct w as [[] ? ? ? ? ? ?].
  - simpl. unfold bind. rewrite markMessageAsRead_run, IH. simpl.
    by rewrite <- list_fmap_compose.
Qed.

Lemma loadMessages_run clock user convId w :
  let history := select_messages convId (db w) in
  loadMessages clock user convId w =
    (Returned tt,
     MkWorld (MkDb (conversations (db w))
                   (stamps clock 0 (filter (unread_from_peer user) history)
                    <$> messages (db w))
                   (typing_indicators (db w)) (uuid_seed (db w)))
             history (st_conversationId w) (st_loading w) (st_isTyping w)
             (st_unreadCounts w) (st_message w)).
Proof.
  unfold loadMessages, try_catch, bind, select, setMessages. simpl.
  by rewrite markEach_run.
Qed.

Lemma NoDup_fmap_filter {A K} (f : A → K) (P : A → Prop)
    `{!∀ x, Decision (P x)} (l : list A) :
  NoDup (f <$> l) → NoDup (f <$> filter P l).
Proof.
  induction l as [|x l IH]; [done|].
  rewrite fmap_cons, NoDup_cons, filter_cons. intros [Hx Hl].
  destruct (decide (P x)); [|by apply IH].
  rewrite fmap_cons, NoDup_cons. split; [|by apply IH].
  intros [y [E [_ Hy]%list_elem_of_filter]]%list_elem_of_fmap.
  apply Hx. rewrite E. by apply list_elem_of_fmap_2.
Qed.

Lemma elem_of_select_messages convId d m :
  m ∈ select_messages convId d ↔ conversation_id m = convId ∧ m ∈ messages d.
Proof.
  unfold select_messages.
  rewrite (merge_sort_Permutation created_le).
  apply (list_elem_of_filter (fun m => conversation_id m = convId)).
Qed.

Lemma select_messages_NoDup convId user d :
  schema_ok d →
  NoDup (msg_id <$> filter (unread_from_peer user) (select_messages convId d)).
Proof.
  intros Hd. apply NoDup_fmap_filter. unfold select_messages.
  rewrite (merge_sort_Permutation created_le).
  apply NoDup_fmap_filter, Hd.
Qed.

Lemma schema_ok_stamps clock k l d :
  schema_ok d →
  schema_ok (MkDb (conversations d) (stamps clock k l <$> messages d)
                  (typing_indicators d) (uuid_seed d)).
Proof.
  intros [Hpk Hgen Hdiff Hidx Hmpk Hmgen Htpk Htgen Htu].
  assert (msg_id <$> (stamps clock k l <$> messages d) = msg_id <$> messages d)
    as E.
  { rewrite <- list_fmap_compose. apply list_fmap_ext.
    intros i m _. apply msg_id_stamps. }
  split; simpl; try done.
  - by rewrite E.
  - apply Forall_fmap. eapply Forall_impl; [exact Hmgen|].
    intros m. simpl. by rewrite msg_id_stamps.
Qed.

Section LoadMessages.
Variables (clock : nat → timestamptz) (user convId : uuid) (w : World).
Hypothesis Hd : schema_ok (db w).

Let unread := filter (unread_from_peer user) (select_messages convId (db w)).
Let w' := snd (loadMessages clock user convId w).

Lemma unread_elem m :
  m ∈ unread ↔
  m ∈ messages (db w) ∧ conversation_id m = convId ∧ unread_from_peer user m.
Proof.
  unfold unread. rewrite list_elem_of_filter, elem_of_select_messages. tauto.
Qed.

Lemma loadMessages_messages :
  messages (db w') = stamps clock 0 unread <$> messages (db w).
Proof. unfold w'. by rewrite loadMessages_run. Qed.

Lemma loadMessages_marked k m :
  unread !! k = Some m →
  set_read (clock k) (msg_id m) m ∈ messages (db w').
Proof.
  intros Hk. rewrite loadMessages_messages.
  assert (m ∈ messages (db w)) as Hin.
  { apply (list_elem_of_lookup_2 _ k), unread_elem in Hk. tauto. }
  pose proof (stamps_at clock 0 unread k m m
                (select_messages_NoDup convId user (db w) Hd) Hk eq_refl) as Hs.
  simpl in Hs. rewrite <- Hs. by apply list_elem_of_fmap_2.
Qed.

Lemma loadMessages_untouched m :
  m ∈ messages (db w) →
  ¬ (conversation_id m = convId ∧ unread_from_peer user m) →
  stamps clock 0 unread m = m.
Proof.
  intros Hin Hm. apply stamps_absent.
  intros [x [E Hx]]%list_elem_of_fmap. apply Hm.
  pose proof (proj1 (unread_elem x) Hx) as (Hxin & Hc & Hu).
  assert (m = x) as -> by
    by apply (NoDup_fmap_elem_inj msg_id (messages (db w))); [apply Hd|..].
  done.
Qed.

Lemma loadMessages_none_unread :
  filter (unread_for convId user) (messages (db w')) = [].
Proof.
  destruct (filter (unread_for convId user) (messages (db w')))
    as [|m' tl] eqn:E; [done|]. exfalso.
  assert (m' ∈ filter (unread_for convId user) (messages (db w'))) as Hin
    by (rewrite E; left).
  apply list_elem_of_filter in Hin as [(Hc & Hr & Hs) Hin].
  rewrite loadMessages_messages in Hin.
  apply list_elem_of_fmap in Hin as [m [-> Hin]].
  destruct (decide (conversation_id m = convId ∧ unread_from_peer user m))
    as [[Hmc Hmu]|Hm].
  - assert (m ∈ unread) as [k Hk]%list_elem_of_lookup_1
      by (apply unread_elem; tauto).
    rewrite (stamps_at clock 0 unread k m m) in Hr;
      [|by apply select_messages_NoDup|done..].
    by rewrite set_read_self in Hr.
  - rewrite (loadMessages_untouched m Hin Hm) in Hc, Hr, Hs.
    apply Hm. by split.
Qed.
End LoadMessages.

Lemma schema_ok_chat_db : schema_ok chat_db.
Proof. split; simpl; apply (bool_decide_unpack _); by vm_compute. Qed.


(** C4: on a store that satisfies the schema, [loadMessages] returns
    normally and shows the conversation's history; every stored message
    of the conversation that the peer sent and that is unread is stamped
    [is_read = true] with [read_at] the clock reading of its turn in the
    loop (the turns follow the creation order); every other stored
    message is left as it is; afterwards the conversation holds no unread
    message from the peer and the recomputed unread count of that peer
    is 0. *)
Theorem loadMessages_marks_unread
    (clock : nat → timestamptz) (user convId : uuid) (w : World) :
  schema_ok (db w) →
  let unread := filter (unread_from_peer user) (select_messages convId (db w)) in
  let w' := snd (loadMessages clock user convId w) in
  fst (loadMessages clock user convId w) = Returned tt
  ∧ st_messages w' = select_messages convId (db w)
  ∧ (∀ m, m ∈ messages (db w) → conversation_id m = convId →
          unread_from_peer user m →
       ∃ k, unread !! k = Some m
            ∧ Message (msg_id m) (conversation_id m) (sender_id m) (content m)
                      true (delivered_at m) (Some (clock k)) (created_at m)
              ∈ messages (db w'))
  ∧ (∀ m, m ∈ messages (db w) →
          ¬ (conversation_id m = convId ∧ unread_from_peer user m) →
       m ∈ messages (db w'))
  ∧ length (messages (db w')) = length (messages (db w))
  ∧ filter (unread_for convId user) (messages (db w')) = []
  ∧ (∀ conv, conv ∈ conversations (db w) → conv_id conv = convId →
             participant_filter user conv →
       st_unreadCounts (snd (fetchUnreadCounts (Some user) w'))
         !! otherUserId user conv = Some 0).
Proof.
  intros Hd unread w'. split_and!.
  - by rewrite loadMessages_run.
  - subst w'. by rewrite loadMessages_run.
  - intros m Hin Hc Hu.
    assert (m ∈ unread) as [k Hk]%list_elem_of_lookup_1
      by (apply unread_elem; tauto).
    exists k. split; [done|]. rewrite <- set_read_self.
    by apply loadMessages_marked.
  - intros m Hin Hm. subst w'. rewrite loadMessages_messages.
    rewrite <- (loadMessages_untouched clock user convId w Hd m Hin Hm) at 1.
    by apply list_elem_of_fmap_2.
  - subst w'. by rewrite loadMessages_messages, length_fmap.
  - by apply loadMessages_none_unread.
  - intros conv Hin Hc Hu.
    pose proof (loadMessages_none_unread clock user convId w Hd) as Hnone.
    simpl in Hnone. fold w' in Hnone.
    assert (schema_ok (db w') ∧ conversations (db w') = conversations (db w))
      as [Hd' Hconvs].
    { subst w'. rewrite loadMessages_run. simpl.
      split; [by apply schema_ok_stamps|done]. }
    rewrite (fetchUnreadCounts_lookup user w' conv Hd');
      [|by rewrite Hconvs|done].
    by rewrite Hc, Hnone.
Qed.

Lemma loadMessages_marks_unread_witness :
  let clock := fun k => 50 + k in
  let w := MkWorld chat_db [] (Some 0) true false ∅ [] in
  let unread := filter (unread_from_peer 2) (select_messages 0 (db w)) in
  let w' := snd (loadMessages clock 2 0 w) in
  fst (loadMessages clock 2 0 w) = Returned tt
  ∧ st_messages w' = select_messages 0 (db w)
  ∧ (∀ m, m ∈ messages (db w) → conversation_id m = 0 →
          unread_from_peer 2 m →
       ∃ k, unread !! k = Some m
            ∧ Message (msg_id m) (conversation_id m) (sender_id m) (content m)
                      true (delivered_at m) (Some (clock k)) (created_at m)
              ∈ messages (db w'))
  ∧ (∀ m, m ∈ messages (db w) →
          ¬ (conversation_id m = 0 ∧ unread_from_peer 2 m) →
       m ∈ messages (db w'))
  ∧ length (messages (db w')) = length (messages (db w))
  ∧ filter (unread_for 0 2) (messages (db w')) = []
  ∧ (∀ conv, conv ∈ conversations (db w) → conv_id conv = 0 →
             participant_filter 2 conv →
       st_unreadCounts (snd (fetchUnreadCounts (Some 2) w'))
         !! otherUserId 2 conv = Some 0).
Proof.
  apply (loadMessages_marks_unread (fun k => 50 + k) 2 0
           (MkWorld chat_db [] (Some 0) true false ∅ [])).
  apply schema_ok_chat_db.
Defined.

(** ** Invariants of the store *)

(** Every entry point of the client keeps an invariant that the five
    writes of the store keep. *)
Section Keeps.
Variable P : Db → Prop.
Hypothesis P_insert_conversation :
  ∀ now p1 p2 d, P d → P (snd (insert_conversation now p1 p2 d)).
Hypothesis P_update_message_read : ∀ t mid d, P d → P (update_message_read t mid d).
Hypothesis P_insert_message :
  ∀ now c u body date d, P d → P (snd (insert_message now c u body date d)).
Hypothesis P_update_typing : ∀ b t tid d, P d → P (update_typing b t tid d).
Hypothesis P_insert_typing :
  ∀ now c u b d, P d → P (snd (insert_typing now c u b d)).

Lemma keeps_ret {A} (a : A) : keeps P (ret a).
Proof. by intros w. Qed.

Lemma keeps_throw {A} e : keeps P (@throw A e).
Proof. by intros w. Qed.

Lemma keeps_bind {A B} (m : Async A) (k : A → Async B) :
  keeps P m → (∀ a, keeps P (k a)) → keeps P (bind m k).
Proof.
  intros Hm Hk w Hw. unfold bind. specialize (Hm w Hw).
  destruct (m w) as [[a|e] w1]; [by apply Hk|done].
Qed.

Lemma keeps_try_catch {A} (m : Async A) (h : exception → Async A) :
  keeps P m → (∀ e, keeps P (h e)) → keeps P (try_catch m h).
Proof.
  intros Hm Hh w Hw. unfold try_catch. specialize (Hm w Hw).
  destruct (m w) as [[a|e] w1]; [done|by apply Hh].
Qed.

Lemma keeps_try_finally {A} (m : Async A) (f : Async unit) :
  keeps P m → keeps P f → keeps P (try_finally m f).
Proof.
  intros Hm Hf w Hw. unfold try_finally. specialize (Hm w Hw).
  destruct (m w) as [o w1]. specialize (Hf w1 Hm).
  by destruct (f w1) as [[[]|e] w2].
Qed.

Lemma keeps_select {A} (q : Db → A) : keeps P (select q).
Proof. by intros w. Qed.

Lemma keeps_query {A} (q : Db → A * Db) :
  (∀ d, P d → P (snd (q d))) → keeps P (query q).
Proof.
  intros Hq w Hw. unfold query. specialize (Hq (db w) Hw).
  by destruct (q (db w)).
Qed.

Lemma keeps_exec (q : Db → Db) : (∀ d, P d → P (q d)) → keeps P (exec q).
Proof. intros Hq w Hw. by apply Hq. Qed.

Lemma keeps_markMessageAsRead t mid : keeps P (markMessageAsRead t mid).
Proof.
  apply keeps_try_catch; [|intros; apply keeps_ret].
  apply keeps_exec. intros d. apply P_update_message_read.
Qed.

Lemma keeps_markEach clock k l : keeps P (markEach clock k l).
Proof.
  revert k. induction l as [|x l IH]; intros k; [apply keeps_ret|].
  apply keeps_bind; [apply keeps_markMessageAsRead|done].
Qed.

Lemma keeps_loadMessages clock user convId :
  keeps P (loadMessages clock user convId).
Proof.
  apply keeps_try_catch; [|intros; apply keeps_ret].
  apply keeps_bind; [apply keeps_select|]. intros r.
  destruct (error r); [apply keeps_throw|].
  apply keeps_bind; [by intros w|]. intros _. apply keeps_markEach.
Qed.

Lemma keeps_getOrCreateConversation now user selectedUser :
  keeps P (getOrCreateConversation now user selectedUser).
Proof.
  apply keeps_try_catch; [|intros; apply keeps_throw].
  apply keeps_bind; [apply keeps_select|]. intros r.
  destruct (error r); [apply keeps_throw|].
  destruct (data r); [apply keeps_ret|].
  apply keeps_bind; [by apply keeps_exec|]. intros _.
  apply keeps_bind.
  - apply keeps_query. intros d Hd.
    pose proof (P_insert_conversation now user selectedUser d Hd).
    by destruct (insert_conversation now user selectedUser d).
  - intros r'. destruct (error r'); [apply keeps_throw|].
    destruct (data r'); [apply keeps_ret|apply keeps_throw].
Qed.

Lemma keeps_initializeConversation now clock user selectedUser :
  keeps P (initializeConversation now clock user selectedUser).
Proof.
  apply keeps_try_finally; [|by intros w].
  apply keeps_try_catch; [|intros; apply keeps_ret].
  apply keeps_bind; [by intros w|]. intros _.
  apply keeps_bind; [apply keeps_getOrCreateConversation|]. intros convId.
  apply keeps_bind; [by intros w|]. intros _. apply keeps_loadMessages.
Qed.

Lemma keeps_handleSendMessage date now user content :
  keeps P (handleSendMessage date now user content).
Proof.
  apply keeps_bind; [by intros w|]. intros [c|]; [|apply keeps_ret].
  destruct (falsy (trim content)); [apply keeps_ret|].
  apply keeps_try_catch; [|intros; apply keeps_ret].
  apply keeps_bind.
  - apply keeps_query. intros d. apply P_insert_message.
  - intros r. destruct (error r); [apply keeps_throw|apply keeps_ret].
Qed.

Lemma keeps_updateTypingIndicator date now user typing :
  keeps P (updateTypingIndicator date now user typing).
Proof.
  apply keeps_bind; [by intros w|]. intros [c|]; [|apply keeps_ret].
  apply keeps_try_catch; [|intros; apply keeps_ret].
  apply keeps_bind; [apply keeps_select|]. intros r.
  destruct (data r); [apply keeps_exec; intros d; apply P_update_typing|].
  apply keeps_bind; [|intros; apply keeps_ret].
  apply keeps_query. intros d. apply P_insert_typing.
Qed.

Lemma keeps_handleSubmit date now user disabled :
  keeps P (handleSubmit date now user disabled).
Proof.
  intros w Hw. unfold handleSubmit.
  destruct (falsy (trim (st_message w)) || disabled); [done|].
  refine (keeps_bind _ _ _ _ w Hw); [by intros ?|]. intros _.
  apply keeps_bind; [apply keeps_updateTypingIndicator|]. intros _.
  apply keeps_handleSendMessage.
Qed.

Lemma keeps_messagesChannel now user ev : keeps P (messagesChannel now user ev).
Proof.
  destruct ev as [new|new]; [|by intros w].
  apply keeps_bind; [by intros w|]. intros _.
  case_decide; [apply keeps_markMessageAsRead|apply keeps_ret].
Qed.

Lemma keeps_fetchUnreadCounts user : keeps P (fetchUnreadCounts user).
Proof.
  destruct user as [u|]; [|apply keeps_ret].
  intros w Hw. by rewrite fetchUnreadCounts_run.
Qed.

Lemma keeps_run (a : action) : keeps P (run a).
Proof.
  destruct a; simpl.
  - apply keeps_initializeConversation.
  - apply keeps_handleSendMessage.
  - apply keeps_handleSubmit.
  - apply keeps_updateTypingIndicator.
  - apply keeps_messagesChannel.
  - destruct new as [t| |]; [|by intros w|apply keeps_ret].
    simpl. case_decide; [by intros w|apply keeps_ret].
  - apply keeps_fetchUnreadCounts.
Qed.

Lemma keeps_steps (d0 d : Db) : rtc db_step d0 d → P d0 → P d.
Proof.
  induction 1 as [d|d1 d2 d3 (a & w & <- & <-) _ IH]; [done|].
  intros Hw. apply IH. by apply keeps_run.
Qed.
End Keeps.

(** *** The schema constraints hold in every reachable store *)

Lemma conv_id_update_timestamp now cid (l : list conversation) :
  conv_id <$> (update_conversation_timestamp now cid <$> l) = conv_id <$> l.
Proof.
  rewrite <- list_fmap_compose. apply list_fmap_ext.
  intros i c _. simpl. unfold update_conversation_timestamp. by case_decide.
Qed.

Lemma conv_key_update_timestamp now cid (l : list conversation) :
  conv_key <$> (update_conversation_timestamp now cid <$> l) = conv_key <$> l.
Proof.
  rewrite <- list_fmap_compose. apply list_fmap_ext.
  intros i c _. simpl. unfold update_conversation_timestamp. by case_decide.
Qed.

Lemma schema_ok_insert_message now c u body date d :
  schema_ok d → schema_ok (snd (insert_message now c u body date d)).
Proof.
  unfold insert_message. destruct (storable body); [|done].
  intros [Hpk Hgen Hdiff Hidx Hmpk Hmgen Htpk Htgen Htu].
  split; simpl; try done.
  - by rewrite conv_id_update_timestamp.
  - apply Forall_fmap. eapply Forall_impl; [exact Hgen|].
    intros x. simpl. unfold update_conversation_timestamp.
    case_decide; simpl; lia.
  - apply Forall_fmap. eapply Forall_impl; [exact Hdiff|].
    intros x. simpl. unfold update_conversation_timestamp. by case_decide.
  - by rewrite conv_key_update_timestamp.
  - rewrite fmap_app. apply NoDup_app. split_and!; [done| |apply NoDup_singleton].
    intros x Hx ->%list_elem_of_singleton. simpl in Hx.
    apply list_elem_of_fmap in Hx as [m [Hm Hin]].
    rewrite Forall_forall in Hmgen. specialize (Hmgen m Hin). lia.
  - apply Forall_app. split.
    + eapply Forall_impl; [exact Hmgen|]. simpl. intros. lia.
    + apply Forall_singleton. simpl. lia.
  - eapply Forall_impl; [exact Htgen|]. simpl. intros. lia.
Qed.

Lemma schema_ok_update_message_read t mid d :
  schema_ok d → schema_ok (update_message_read t mid d).
Proof. apply (schema_ok_stamps (fun _ => t) 0 [Message mid 0 0 [] false None None 0]). Qed.

(** X18: every store reachable from the empty one by the entry points of
    the client satisfies the constraints of the schema: ids are unique
    per table, no conversation joins a user with itself, a pair of users
    has at most one conversation, and a (conversation, user) pair has at
    most one typing indicator. *)
Lemma reachable_schema_ok (d : Db) : reachable d → schema_ok d.
Proof.
  intros Hr. apply (keeps_steps schema_ok) with (d0 := empty_db);
    [| | | | |done|apply schema_ok_empty].
  - intros now p1 p2 d0 Hd. unfold insert_conversation.
    repeat case_decide; try done. by apply schema_ok_insert_conversation.
  - apply schema_ok_update_message_read.
  - apply schema_ok_insert_message.
  - apply schema_ok_update_typing.
  - intros now c u b d0 Hd. unfold insert_typing.
    case_decide; [done|]. by apply schema_ok_insert_typing.
Qed.

(** *** The read-state invariant *)

Lemma read_mirror_set_read t mid m : read_mirror m → read_mirror (set_read t mid m).
Proof. unfold set_read. by case_decide. Qed.

Lemma mirrored_update_message_read t mid d :
  mirrored d → mirrored (update_message_read t mid d).
Proof.
  unfold mirrored. simpl. intros Hd. apply Forall_fmap.
  eapply Forall_impl; [exact Hd|]. intros m. apply read_mirror_set_read.
Qed.

Lemma mirrored_insert_message now c u body date d :
  mirrored d → mirrored (snd (insert_message now c u body date d)).
Proof.
  unfold mirrored, insert_message. intros Hd.
  destruct (storable body); [|done]. simpl.
  apply Forall_app. split; [done|]. by apply Forall_singleton.
Qed.

Lemma mirrored_insert_conversation now p1 p2 d :
  mirrored d → mirrored (snd (insert_conversation now p1 p2 d)).
Proof. unfold insert_conversation. by repeat case_decide. Qed.

Lemma mirrored_insert_typing now c u b d :
  mirrored d → mirrored (snd (insert_typing now c u b d)).
Proof. unfold insert_typing. by case_decide. Qed.

(** C9: in every store reachable from the empty one by the entry points
    of the client, every message has [is_read] equal to whether its
    [read_at] is set. *)
Theorem reachable_read_mirror (d : Db) :
  reachable d → Forall read_mirror (messages d).
Proof.
  intros Hr. apply (keeps_steps mirrored) with (d0 := empty_db); try done.
  - apply mirrored_insert_conversation.
  - apply mirrored_update_message_read.
  - apply mirrored_insert_message.
  - apply mirrored_insert_typing.
  - constructor.
Qed.

Lemma reachable_greeted_db : reachable greeted_db.
Proof.
  eapply rtc_l.
  { exists (SelectPeer 5 (fun k => k) 1 2), (initial_world empty_db).
    split; reflexivity. }
  eapply rtc_l.
  { exists (Send 7 8 1 [72; 105]%N),
           (MkWorld (MkDb [Conversation 0 1 2 5 5] [] [] 1)
                    [] (Some 0) false false ∅ []).
    split; reflexivity. }
  eapply rtc_l; [|apply rtc_refl].
  exists (MessageEvent 9 2
            (INSERT (Message 1 0 1 [72; 105]%N false (Some 7) None 8))),
         (MkWorld (MkDb [Conversation 0 1 2 5 8]
                        [Message 1 0 1 [72; 105]%N false (Some 7) None 8] [] 2)
                  [] (Some 0) false false ∅ []).
  split; reflexivity.
Qed.

Lemma reachable_read_mirror_witness : Forall read_mirror (messages greeted_db).
Proof. apply (reachable_read_mirror greeted_db), reachable_greeted_db. Defined.

(** ** Worked examples *)

Example trim_hi : trim [32; 9; 72; 105; 32; 10]%N = [72; 105]%N.
Proof. reflexivity. Qed.

Example trim_inner_space_kept : trim [160; 72; 32; 105; 8232]%N = [72; 32; 105]%N.
Proof. reflexivity. Qed.

(** Bob's unread counts on [chat_db]: three from alice, none from carol. *)
Example unread_counts_bob :
  st_unreadCounts (snd (fetchUnreadCounts (Some 2) (initial_world chat_db)))
  = {[1 := 3; 3 := 0]}.
Proof. by vm_compute. Qed.

(** Bob opens the conversation with alice: her three unread messages are
    stamped in creation order, his own message and the one already read
    keep their state. *)
Example history_read_by_bob :
  (fun m => (msg_id m, is_read m, read_at m))
    <$> messages (db (snd (loadMessages (fun k => 50 + k) 2 0
                             (initial_world chat_db))))
  = [(1, true, Some 50); (2, false, None); (3, true, Some 51);
     (4, true, Some 15); (5, true, Some 52)].
Proof. by vm_compute. Qed.

(** The end-to-end scenario: alice sends a message to bob, bob's map shows
    one unread message from alice, bob's window marks it read, and his
    map shows 0 for alice. *)
Example alice_greets_bob :
  let w0 := snd (initializeConversation 5 (fun k => k) 1 2
                   (initial_world empty_db)) in
  let w1 := snd (handleSendMessage 7 8 1 [72; 105; 32; 66; 111; 98; 33]%N w0) in
  let w2 := snd (fetchUnreadCounts (Some 2) w1) in
  let w3 := snd (markMessageAsRead 9 1 w2) in
  let w4 := snd (fetchUnreadCounts (Some 2) w3) in
  messages (db w1)
  = [Message 1 0 1 [72; 105; 32; 66; 111; 98; 33]%N false (Some 7) None 8]
  ∧ st_unreadCounts w2 = {[1 := 1]}
  ∧ messages (db w3)
    = [Message 1 0 1 [72; 105; 32; 66; 111; 98; 33]%N true (Some 7) (Some 9) 8]
  ∧ st_unreadCounts w4 = {[1 := 0]}.
Proof. by vm_compute. Qed.

(** * Further properties of the components *)

(** ** Opening a conversation *)

Lemma filter_pair_self (u : uuid) (d : Db) :
  schema_ok d → filter (pair_filter u u) (conversations d) = [].
Proof.
  intros Hd. destruct (filter (pair_filter u u) (conversations d)) as [|c tl] eqn:E;
    [done|]. exfalso.
  assert (c ∈ filter (pair_filter u u) (conversations d))
    as [Hc Hin]%list_elem_of_filter by (rewrite E; left).
  pose proof (different_participants d Hd) as Hdiff.
  rewrite Forall_forall in Hdiff. apply (Hdiff c Hin).
  destruct Hc as [[-> ->]|[-> ->]]; done.
Qed.

Lemma initializeConversation_resolved now clock user selectedUser w cid w1 :
  getOrCreateConversation now user selectedUser (snd (setLoading true w))
    = (Returned cid, w1) →
  initializeConversation now clock user selectedUser w =
    (Returned tt,
     snd (setLoading false
            (snd (loadMessages clock user cid (snd (setConversationId cid w1)))))).
Proof.
  intros Hrun. unfold initializeConversation, try_finally, try_catch, bind.
  change (setLoading true w) with (Returned tt, snd (setLoading true w)).
  cbv iota beta. rewrite Hrun.
  set (w2 := snd (setConversationId cid w1)).
  change (setConversationId cid w1) with (Returned tt, w2).
  cbv iota beta. rewrite !loadMessages_run. reflexivity.
Qed.

Lemma initializeConversation_failed now clock user selectedUser w e w1 :
  getOrCreateConversation now user selectedUser (snd (setLoading true w))
    = (Thrown e, w1) →
  initializeConversation now clock user selectedUser w =
    (Returned tt, snd (setLoading false w1)).
Proof.
  intros Hrun. unfold initializeConversation, try_finally, try_catch, bind.
  change (setLoading true w) with (Returned tt, snd (setLoading true w)).
  cbv iota beta. by rewrite Hrun.
Qed.

(** X1: opening the chat with another user on a store that satisfies the
    schema never fails and ends with the spinner off, [conversationId]
    set to the id of the one conversation of the pair, the local list
    holding messages of that conversation only, no unread message from
    the peer left in it, and the schema still satisfied. *)
Theorem initializeConversation_opens
    (now : timestamptz) (clock : nat → timestamptz)
    (user selectedUser : uuid) (w : World) :
  schema_ok (db w) → user ≠ selectedUser →
  let w' := snd (initializeConversation now clock user selectedUser w) in
  fst (initializeConversation now clock user selectedUser w) = Returned tt
  ∧ st_loading w' = false
  ∧ schema_ok (db w')
  ∧ ∃ c, filter (pair_filter user selectedUser) (conversations (db w')) = [c]
         ∧ st_conversationId w' = Some (conv_id c)
         ∧ Forall (fun m => conversation_id m = conv_id c) (st_messages w')
         ∧ filter (unread_for (conv_id c) user) (messages (db w')) = [].
Proof.
  intros Hd Hne.
  destruct (resolver_total user selectedUser now (snd (setLoading true w)) Hd Hne)
    as (c & w1 & Hrun & Hd1 & _ & E).
  rewrite (initializeConversation_resolved _ clock _ _ _ _ _ Hrun).
  set (w2 := snd (setConversationId (conv_id c) w1)).
  assert (schema_ok (db w2)) as Hd2 by done.
  pose proof (loadMessages_none_unread clock user (conv_id c) w2 Hd2) as Hnone.
  simpl in Hnone. rewrite loadMessages_run in *. simpl in *.
  split_and!; try done.
  - by apply schema_ok_stamps.
  - exists c. split_and!; try done.
    apply Forall_forall. intros m Hm.
    by apply elem_of_select_messages in Hm as [? _].
Qed.

Lemma initializeConversation_opens_witness :
  let w' := snd (initializeConversation 30 (fun k => 50 + k) 2 1
                   (initial_world chat_db)) in
  fst (initializeConversation 30 (fun k => 50 + k) 2 1 (initial_world chat_db))
    = Returned tt
  ∧ st_loading w' = false
  ∧ schema_ok (db w')
  ∧ ∃ c, filter (pair_filter 2 1) (conversations (db w')) = [c]
         ∧ st_conversationId w' = Some (conv_id c)
         ∧ Forall (fun m => conversation_id m = conv_id c) (st_messages w')
         ∧ filter (unread_for (conv_id c) 2) (messages (db w')) = [].
Proof.
  apply (initializeConversation_opens 30 (fun k => 50 + k) 2 1
           (initial_world chat_db)).
  - apply schema_ok_chat_db.
  - lia.
Defined.

Lemma resolver_self (now : timestamptz) (user : uuid) (w : World) :
  schema_ok (db w) →
  getOrCreateConversation now user user w
  = (Thrown (PostgrestErr check_violation), w).
Proof.
  intros Hd. unfold getOrCreateConversation, getOrCreateConversation_with.
  rewrite try_catch_rethrow. unfold bind, select, interfere, exec, query.
  rewrite (filter_pair_self user (db w) Hd). simpl.
  unfold insert_conversation. rewrite decide_True by done. simpl.
  by destruct w.
Qed.

(** X2: opening a chat with oneself is refused by the store's CHECK
    constraint: the resolver throws the check violation, and
    [initializeConversation] swallows it, leaving the store, the open
    conversation and the local list as they were, with the spinner
    off. *)
Theorem initializeConversation_self_refused
    (now : timestamptz) (clock : nat → timestamptz) (user : uuid) (w : World) :
  schema_ok (db w) →
  getOrCreateConversation now user user w
    = (Thrown (PostgrestErr check_violation), w)
  ∧ initializeConversation now clock user user w
    = (Returned tt, snd (setLoading false w)).
Proof.
  intros Hd. split; [by apply resolver_self|].
  by rewrite (initializeConversation_failed _ _ _ _ _ _ _
                (resolver_self now user (snd (setLoading true w)) Hd)).
Qed.

Lemma initializeConversation_self_refused_witness :
  getOrCreateConversation 30 2 2 (initial_world chat_db)
    = (Thrown (PostgrestErr check_violation), initial_world chat_db)
  ∧ initializeConversation 30 (fun k => k) 2 2 (initial_world chat_db)
    = (Returned tt, snd (setLoading false (initial_world chat_db))).
Proof.
  apply (initializeConversation_self_refused 30 (fun k => k) 2
           (initial_world chat_db)), schema_ok_chat_db.
Defined.

(** X3: whatever other clients write between the resolver's lookup and
    its insert, as long as they respect the schema, the resolver never
    leaves two conversations for a pair: it either returns the id of the
    pair's only conversation, or throws the check violation (and then
    the two users are the same), or throws the uniqueness violation (and
    then the pair's conversation exists, created by the other client). *)
Theorem getOrCreateConversation_with_outcomes
    (interference : Db → Db) (now : timestamptz) (user selectedUser : uuid)
    (w : World) :
  schema_ok (db w) → (∀ d, schema_ok d → schema_ok (interference d)) →
  let r := getOrCreateConversation_with interference now user selectedUser w in
  schema_ok (db (snd r))
  ∧ ((∃ c, fst r = Returned (conv_id c)
           ∧ filter (pair_filter user selectedUser) (conversations (db (snd r)))
             = [c])
     ∨ (fst r = Thrown (PostgrestErr check_violation) ∧ user = selectedUser)
     ∨ (fst r = Thrown (PostgrestErr unique_violation)
        ∧ ∃ c, filter (pair_filter user selectedUser)
                      (conversations (db (snd r))) = [c])).
Proof.
  intros Hd Hi r. subst r.
  destruct (filter_pair_cases user selectedUser (db w) Hd) as [[E _]|[c E]].
  - pose proof (Hi _ Hd) as Hd1.
    destruct (decide (user = selectedUser)) as [->|Hne].
    + assert (error (fst (insert_conversation now selectedUser selectedUser
                            (interference (db w)))) = Some check_violation) as He.
      { unfold insert_conversation. by rewrite decide_True. }
      unfold getOrCreateConversation_with.
      rewrite try_catch_rethrow. unfold bind, select, interfere, exec, query.
      rewrite E. simpl. rewrite (insert_conversation_error _ _ _ _ _ He). simpl.
      split; [done|]. right. by left.
    + destruct (filter_pair_cases user selectedUser _ Hd1) as [[E1 Hfresh]|[c E1]].
      * rewrite (resolver_insert_ok _ _ _ _ _ E Hne Hfresh). simpl.
        split; [by apply schema_ok_insert_conversation|]. left.
        exists (Conversation (uuid_seed (interference (db w)))
                             user selectedUser now now).
        split; [done|]. simpl.
        rewrite filter_app, E1, filter_cons, filter_nil. simpl.
        rewrite decide_True; [done|]. by left.
      * assert (error (fst (insert_conversation now user selectedUser
                              (interference (db w)))) = Some unique_violation)
          as He.
        { unfold insert_conversation. rewrite decide_False by done.
          rewrite decide_True; [done|].
          rewrite <- (proj2 (conv_key_pair_filter user selectedUser c)).
          - apply list_elem_of_fmap_2.
            assert (c ∈ filter (pair_filter user selectedUser)
                          (conversations (interference (db w)))) as Hin
              by (rewrite E1; left).
            by apply list_elem_of_filter in Hin as [_ ?].
          - assert (c ∈ filter (pair_filter user selectedUser)
                          (conversations (interference (db w)))) as Hin
              by (rewrite E1; left).
            by apply list_elem_of_filter in Hin as [? _]. }
        unfold getOrCreateConversation_with.
        rewrite try_catch_rethrow. unfold bind, select, interfere, exec, query.
        rewrite E. simpl. rewrite (insert_conversation_error _ _ _ _ _ He). simpl.
        split; [done|]. right. right. split; [done|]. by exists c.
  - rewrite (resolver_existing _ _ _ _ _ _ E). simpl. split; [done|].
    left. by exists c.
Qed.

Lemma peer_resolves_first_schema_ok (d : Db) :
  schema_ok d → schema_ok (peer_resolves_first d).
Proof.
  intros Hd. unfold peer_resolves_first.
  destruct (resolver_total 2 1 5 (initial_world d) Hd) as (c & w1 & -> & ? & _);
    [lia|done].
Qed.

Lemma getOrCreateConversation_with_outcomes_witness :
  let r := getOrCreateConversation_with peer_resolves_first 6 1 2
             (initial_world empty_db) in
  schema_ok (db (snd r))
  ∧ ((∃ c, fst r = Returned (conv_id c)
           ∧ filter (pair_filter 1 2) (conversations (db (snd r))) = [c])
     ∨ (fst r = Thrown (PostgrestErr check_violation) ∧ 1 = 2)
     ∨ (fst r = Thrown (PostgrestErr unique_violation)
        ∧ ∃ c, filter (pair_filter 1 2) (conversations (db (snd r))) = [c])).
Proof.
  apply (getOrCreateConversation_with_outcomes peer_resolves_first 6 1 2
           (initial_world empty_db)).
  - apply schema_ok_empty.
  - apply peer_resolves_first_schema_ok.
Defined.

(** ** Sending and the unread counts *)

Lemma unreadCountsOf_fill (u : uuid) (d : Db) :
  unreadCountsOf u d =
    fill (otherUserId u)
         (fun conv => length (filter (unread_for (conv_id conv) u) (messages d)))
         ∅ (filter (participant_filter u) (conversations d)).
Proof. unfold unreadCountsOf. by rewrite fetchUnreadCounts_run. Qed.

Lemma unreadCountsOf_lookup (u : uuid) (d : Db) (conv : conversation) :
  schema_ok d → conv ∈ conversations d → participant_filter u conv →
  unreadCountsOf u d !! otherUserId u conv
  = Some (length (filter (unread_for (conv_id conv) u) (messages d))).
Proof. intros. by apply (fetchUnreadCounts_lookup u (initial_world d)). Qed.

Lemma fill_fmap {A B} (f : A → B) (k v : B → nat) (m : gmap nat nat) (l : list A) :
  fill k v m (f <$> l) = fill (k ∘ f) (v ∘ f) m l.
Proof. revert m. induction l as [|x l IH]; intros m; [done|]. simpl. apply IH. Qed.

Lemma fill_ext_in {A} (k k' v v' : A → nat) (m : gmap nat nat) (l : list A) :
  (∀ x, x ∈ l → k x = k' x ∧ v x = v' x) → fill k v m l = fill k' v' m l.
Proof.
  revert m. induction l as [|x l IH]; intros m Hl; [done|]. simpl.
  destruct (Hl x) as [-> ->]; [left|]. apply IH. intros y Hy. apply Hl. by right.
Qed.

Lemma pair_filter_distinct (a b : uuid) (c : conversation) (d : Db) :
  schema_ok d → c ∈ conversations d → pair_filter a b c → a ≠ b.
Proof.
  intros Hd Hin Hc ->. pose proof (different_participants d Hd) as Hdiff.
  rewrite Forall_forall in Hdiff. apply (Hdiff c Hin).
  destruct Hc as [[-> ->]|[-> ->]]; done.
Qed.

Lemma pair_filter_other (a b : uuid) (c : conversation) :
  a ≠ b → pair_filter a b c →
  participant_filter a c ∧ participant_filter b c
  ∧ otherUserId a c = b ∧ otherUserId b c = a.
Proof.
  unfold pair_filter, participant_filter, otherUserId.
  intros Hne [[<- <-]|[<- <-]]; repeat case_decide; auto; congruence.
Qed.

Lemma send_db date now user content w cid :
  trim content ≠ [] → storable (trim content) = true →
  st_conversationId w = Some cid →
  db (snd (handleSendMessage date now user content w)) =
    MkDb (update_conversation_timestamp now cid <$> conversations (db w))
         (messages (db w)
          ++ [Message (uuid_seed (db w)) cid user (trim content) false
                      (Some date) None now])
         (typing_indicators (db w)) (S (uuid_seed (db w))).
Proof.
  intros E Hs Hc. rewrite (handleSendMessage_sent _ _ _ _ _ _ E Hc).
  unfold insert_message. by rewrite Hs.
Qed.

Lemma update_timestamp_elem now cid (c : conversation) (l : list conversation) :
  c ∈ l → update_conversation_timestamp now cid c ∈
          update_conversation_timestamp now cid <$> l.
Proof. apply list_elem_of_fmap_2. Qed.

Lemma update_timestamp_keeps now cid (c : conversation) :
  conv_id (update_conversation_timestamp now cid c) = conv_id c
  ∧ participant_1 (update_conversation_timestamp now cid c) = participant_1 c
  ∧ participant_2 (update_conversation_timestamp now cid c) = participant_2 c.
Proof. unfold update_conversation_timestamp. by case_decide. Qed.

Lemma unreadCountsOf_send_others now cid new q d :
  schema_ok d →
  (∀ conv, conv ∈ conversations d → participant_filter q conv →
           ¬ unread_for (conv_id conv) q new) →
  unreadCountsOf q
    (MkDb (update_conversation_timestamp now cid <$> conversations d)
          (messages d ++ [new]) (typing_indicators d) (S (uuid_seed d)))
  = unreadCountsOf q d.
Proof.
  intros Hd Hnew. rewrite !unreadCountsOf_fill. simpl.
  rewrite (filter_fmap_stable (participant_filter q)
             (update_conversation_timestamp now cid)).
  - rewrite fill_fmap. apply fill_ext_in.
    intros conv [Hq Hin]%list_elem_of_filter. simpl.
    destruct (update_timestamp_keeps now cid conv) as (Hid & H1 & H2).
    split.
    + unfold otherUserId. by rewrite H1, H2.
    + rewrite Hid, filter_app, length_app, filter_cons, filter_nil.
      rewrite decide_False; [simpl; lia|]. by apply Hnew.
  - intros conv. unfold participant_filter.
    destruct (update_timestamp_keeps now cid conv) as (_ & -> & ->). done.
Qed.

(** X4: on a store that satisfies the schema, sending in the open
    conversation a non-blank message whose trimmed content the column
    [content text] can hold raises by exactly one the unread count that
    the peer's recount shows for the sender, and changes the recounted
    map of no other user (the sender's own included). *)
Theorem handleSendMessage_raises_peer_unread
    (date now : timestamptz) (user peer : uuid) (content : text)
    (w : World) (c : conversation) :
  schema_ok (db w) → c ∈ conversations (db w) → pair_filter user peer c →
  st_conversationId w = Some (conv_id c) → trim content ≠ [] →
  storable (trim content) = true →
  let d' := db (snd (handleSendMessage date now user content w)) in
  unreadCountsOf peer d' !! user
  = Some (S (length (filter (unread_for (conv_id c) peer) (messages (db w)))))
  ∧ unreadCountsOf peer (db w) !! user
    = Some (length (filter (unread_for (conv_id c) peer) (messages (db w))))
  ∧ ∀ q, q ≠ peer → unreadCountsOf q d' = unreadCountsOf q (db w).
Proof.
  intros Hd Hin Hc Hcid E Hst d'. subst d'.
  rewrite (send_db _ _ _ _ _ _ E Hst Hcid).
  pose proof (pair_filter_distinct _ _ _ _ Hd Hin Hc) as Hne.
  destruct (pair_filter_other _ _ _ Hne Hc) as (Hu & Hp & Hou & Hop).
  split_and!.
  - pose proof (schema_ok_insert_message now (conv_id c) user (trim content)
                  date (db w) Hd) as Hd'.
    unfold insert_message in Hd'. rewrite Hst in Hd'. cbn [snd] in Hd'.
    destruct (update_timestamp_keeps now (conv_id c) c) as (Hid & H1 & H2).
    rewrite <- Hop at 1.
    replace (otherUserId peer c)
      with (otherUserId peer (update_conversation_timestamp now (conv_id c) c))
      by (unfold otherUserId; by rewrite H1, H2).
    rewrite (unreadCountsOf_lookup peer _ _ Hd').
    + simpl. rewrite Hid, filter_app, length_app, filter_cons, filter_nil.
      rewrite decide_True; [simpl; f_equal; lia|]. by split_and!.
    + by apply update_timestamp_elem.
    + unfold participant_filter. by rewrite H1, H2.
  - rewrite <- Hop at 1. by apply unreadCountsOf_lookup.
  - intros q Hq. apply unreadCountsOf_send_others; [done|].
    intros conv Hconv Hpart (Hid & _ & Hs). simpl in *.
    assert (conv = c) as ->
      by (apply (NoDup_fmap_elem_inj conv_id (conversations (db w)));
          [apply Hd|done..]).
    destruct Hc as [[H1 H2]|[H1 H2]]; destruct Hpart as [H3|H3]; congruence.
Qed.

Lemma handleSendMessage_raises_peer_unread_witness :
  let w := MkWorld chat_db [] (Some 0) false false ∅ [] in
  let d' := db (snd (handleSendMessage 30 31 1 [72; 105]%N w)) in
  unreadCountsOf 2 d' !! 1
  = Some (S (length (filter (unread_for 0 2) (messages (db w)))))
  ∧ unreadCountsOf 2 (db w) !! 1
    = Some (length (filter (unread_for 0 2) (messages (db w))))
  ∧ ∀ q, q ≠ 2 → unreadCountsOf q d' = unreadCountsOf q (db w).
Proof.
  apply (handleSendMessage_raises_peer_unread 30 31 1 2 [72; 105]%N
           (MkWorld chat_db [] (Some 0) false false ∅ [])
           (Conversation 0 1 2 5 20)).
  - apply schema_ok_chat_db.
  - left.
  - by left.
  - reflexivity.
  - discriminate.
  - reflexivity.
Defined.

Lemma set_read_fresh (t : timestamptz) (d : Db) :
  schema_ok d → set_read t (uuid_seed d) <$> messages d = messages d.
Proof.
  intros Hd. rewrite <- (list_fmap_id (messages d)) at 2.
  apply list_fmap_ext. intros i m Hm. simpl. apply set_read_other.
  pose proof (msg_generated d Hd) as Hgen. rewrite Forall_forall in Hgen.
  specialize (Hgen m (list_elem_of_lookup_2 _ _ _ Hm)). lia.
Qed.

(** X5: a message that arrives while the recipient has the conversation
    open never shows up as unread: after the sender's
    [handleSendMessage] of non-blank content that the column
    [content text] can hold and the recipient's handling of the INSERT
    event that carries the stored row, the row is stored as read, the
    recipient's local list ends with the message, and the recipient's
    recounted map is what it was before the send. *)
Theorem live_message_is_read_at_once
    (date now now' : timestamptz) (user peer : uuid) (content : text)
    (w wp : World) (c : conversation) :
  schema_ok (db w) → c ∈ conversations (db w) → pair_filter user peer c →
  st_conversationId w = Some (conv_id c) → trim content ≠ [] →
  storable (trim content) = true →
  db wp = db (snd (handleSendMessage date now user content w)) →
  let new := Message (uuid_seed (db w)) (conv_id c) user (trim content)
                     false (Some date) None now in
  let wp' := snd (messagesSubscription (conv_id c) now' peer (INSERT new) wp) in
  last (messages (db wp)) = Some new
  ∧ st_messages wp' = st_messages wp ++ [new]
  ∧ messages (db wp') =
      messages (db w)
      ++ [Message (uuid_seed (db w)) (conv_id c) user (trim content)
                  true (Some date) (Some now') now]
  ∧ unreadCountsOf peer (db wp') = unreadCountsOf peer (db w).
Proof.
  intros Hd Hin Hc Hcid E Hs Hwp new wp'.
  rewrite (send_db _ _ _ _ _ _ E Hs Hcid) in Hwp.
  pose proof (pair_filter_distinct _ _ _ _ Hd Hin Hc) as Hne.
  assert (db wp' =
          MkDb (update_conversation_timestamp now (conv_id c)
                <$> conversations (db w))
               (messages (db w)
                ++ [Message (uuid_seed (db w)) (conv_id c) user (trim content)
                            true (Some date) (Some now') now])
               (typing_indicators (db w)) (S (uuid_seed (db w)))) as Hdb.
  { subst wp'. unfold messagesSubscription. simpl.
    rewrite decide_True by done. unfold onInsert, bind. simpl.
    rewrite decide_True by done. simpl. rewrite Hwp.
    unfold update_message_read. simpl.
    rewrite fmap_app, (set_read_fresh now' (db w) Hd). simpl.
    unfold set_read. simpl. by rewrite decide_True. }
  split_and!.
  - rewrite Hwp. simpl. by rewrite last_snoc.
  - subst wp'. unfold messagesSubscription. simpl.
    rewrite decide_True by done. unfold onInsert, bind. simpl.
    by rewrite decide_True.
  - by rewrite Hdb.
  - rewrite Hdb. apply unreadCountsOf_send_others; [done|].
    by intros conv _ _ (_ & ? & _).
Qed.

Lemma live_message_is_read_at_once_witness :
  let w := MkWorld chat_db [] (Some 0) false false ∅ [] in
  let wp := snd (handleSendMessage 30 31 1 [72; 105]%N w) in
  let new := Message 7 0 1 [72; 105]%N false (Some 30) None 31 in
  let wp' := snd (messagesSubscription 0 40 2 (INSERT new) wp) in
  last (messages (db wp)) = Some new
  ∧ st_messages wp' = st_messages wp ++ [new]
  ∧ messages (db wp') =
      messages (db w) ++ [Message 7 0 1 [72; 105]%N true (Some 30) (Some 40) 31]
  ∧ unreadCountsOf 2 (db wp') = unreadCountsOf 2 (db w).
Proof.
  apply (live_message_is_read_at_once 30 31 40 1 2 [72; 105]%N
           (MkWorld chat_db [] (Some 0) false false ∅ [])
           (snd (handleSendMessage 30 31 1 [72; 105]%N
                   (MkWorld chat_db [] (Some 0) false false ∅ [])))
           (Conversation 0 1 2 5 20)).
  - apply schema_ok_chat_db.
  - left.
  - by left.
  - reflexivity.
  - discriminate.
  - reflexivity.
  - reflexivity.
Defined.

(** ** The local message list *)

(** X6: the UPDATE handler never touches the store and never changes the
    length of the local list or the ids in it; afterwards every local
    entry with the event's id is the event's message, every other entry
    is untouched, and handling the same event again changes nothing. *)
Theorem onUpdate_in_place (new : message) (w : World) :
  let w' := snd (onUpdate new w) in
  db w' = db w
  ∧ msg_id <$> st_messages w' = msg_id <$> st_messages w
  ∧ Forall (fun m => msg_id m = msg_id new → m = new) (st_messages w')
  ∧ filter (fun m => msg_id m ≠ msg_id new) (st_messages w')
    = filter (fun m => msg_id m ≠ msg_id new) (st_messages w)
  ∧ snd (onUpdate new w') = w'.
Proof.
  simpl. split_and!.
  - done.
  - rewrite <- list_fmap_compose. apply list_fmap_ext.
    intros i m _. simpl. by case_decide.
  - apply Forall_fmap, Forall_true. intros m. simpl. by case_decide.
  - induction (st_messages w) as [|m l IH]; [done|].
    rewrite fmap_cons, !filter_cons. destruct (decide (msg_id m = msg_id new)) as [E|E].
    + rewrite decide_False by (intros H; by apply H).
      rewrite decide_False by (intros H; by apply H). apply IH.
    + rewrite !decide_True by done. by rewrite IH.
  - unfold onUpdate, setMessages. simpl. f_equal.
    rewrite <- list_fmap_compose. apply list_fmap_ext.
    intros i m _. simpl. by repeat case_decide.
Qed.

Lemma messagesSubscription_local c now user ev w :
  Forall (fun m => conversation_id m = c) (st_messages w) →
  Forall (fun m => conversation_id m = c)
         (st_messages (snd (messagesSubscription c now user ev w))).
Proof.
  intros Hw. unfold messagesSubscription. case_decide as Hc; [|done].
  destruct ev as [new|new]; simpl in *.
  - unfold onInsert, bind. simpl.
    assert (Forall (fun m => conversation_id m = c) (st_messages w ++ [new]))
      by (apply Forall_app; split; [done|by apply Forall_singleton]).
    by case_decide.
  - apply Forall_fmap. eapply Forall_impl; [exact Hw|].
    intros m Hm. simpl. by case_decide.
Qed.

Lemma messagesSubscription_conversationId c now user ev w :
  st_conversationId (snd (messagesSubscription c now user ev w))
  = st_conversationId w.
Proof.
  unfold messagesSubscription. case_decide; [|done].
  destruct ev as [new|new]; simpl; [|done].
  unfold onInsert, bind. simpl. by case_decide.
Qed.

Lemma deliver_local c user evs w :
  st_conversationId w = Some c →
  Forall (fun m => conversation_id m = c) (st_messages w) →
  st_conversationId (deliver c user evs w) = Some c
  ∧ Forall (fun m => conversation_id m = c) (st_messages (deliver c user evs w)).
Proof.
  intros Hc Hw. induction evs as [|[now ev] evs [IH1 IH2]] using rev_ind; [done|].
  unfold deliver in *. rewrite foldl_app. simpl. split.
  - by rewrite messagesSubscription_conversationId.
  - by apply messagesSubscription_local.
Qed.

(** X7: once one call of [initializeConversation] has run to completion
    for a peer (on a store that satisfies the schema, with no call for
    another peer overlapping it), [conversationId] names a conversation
    and, through any run of events delivered on that conversation's
    channel, it keeps naming it and every entry of the local list belongs
    to it. *)
Theorem local_list_stays_in_conversation
    (now : timestamptz) (clock : nat → timestamptz) (user selectedUser : uuid)
    (evs : list (timestamptz * ChangeEvent)) (w : World) :
  schema_ok (db w) → user ≠ selectedUser →
  let w1 := snd (initializeConversation now clock user selectedUser w) in
  ∃ c, st_conversationId w1 = Some c
       ∧ st_conversationId (deliver c user evs w1) = Some c
       ∧ Forall (fun m => conversation_id m = c)
                (st_messages (deliver c user evs w1)).
Proof.
  intros Hd Hne.
  destruct (resolver_total user selectedUser now (snd (setLoading true w)) Hd Hne)
    as (c & w0 & Hrun & _).
  rewrite (initializeConversation_resolved _ clock _ _ _ _ _ Hrun).
  rewrite loadMessages_run. cbn [snd].
  exists (conv_id c). split; [done|]. apply deliver_local; [done|].
  simpl. apply Forall_forall. intros m Hm.
  by apply elem_of_select_messages in Hm as [? _].
Qed.

(** X7 at work: user 2 opens the chat with user 1; their own message and
    the update that marks it read arrive, and so does a message of another
    conversation, which the channel filter drops. *)
Lemma local_list_stays_in_conversation_witness :
  let w1 := snd (initializeConversation 30 (fun k => 50 + k) 2 1
                   (initial_world chat_db)) in
  let evs := [(60, INSERT (Message 9 0 2 [79; 75]%N false (Some 59) None 60));
              (61, INSERT (Message 10 4 3 [72; 105]%N false (Some 60) None 61));
              (62, UPDATE (Message 9 0 2 [79; 75]%N true (Some 59) (Some 62) 60))] in
  ∃ c, st_conversationId w1 = Some c
       ∧ st_conversationId (deliver c 2 evs w1) = Some c
       ∧ Forall (fun m => conversation_id m = c)
                (st_messages (deliver c 2 evs w1)).
Proof.
  apply (local_list_stays_in_conversation 30 (fun k => 50 + k) 2 1).
  - apply schema_ok_chat_db.
  - lia.
Defined.

(** The restriction to one call matters: a [loadMessages] of an earlier
    conversation that completes after [conversationId] has moved on
    replaces the local list with the earlier conversation's messages. *)
Lemma stale_loadMessages_replaces_list :
  let w := snd (setConversationId 6 (initial_world chat_db)) in
  let w' := snd (loadMessages (fun k => 50 + k) 2 0 w) in
  st_conversationId w' = Some 6
  ∧ st_messages w' ≠ []
  ∧ Forall (fun m => conversation_id m = 0) (st_messages w').
Proof.
  intros w w'. subst w'. rewrite loadMessages_run. simpl. split; [done|].
  split; apply (bool_decide_unpack _); by vm_compute.
Qed.

Lemma created_le_total : Total created_le.
Proof. intros a b. unfold created_le. lia. Qed.

(** X8: the list [loadMessages] shows is in ascending order of
    [created_at] and is a rearrangement of exactly the messages the
    store held for the conversation when the history was read; the
    entries are that snapshot, so the ones the same call goes on to mark
    read still show their old read state locally. *)
Theorem loadMessages_history_sorted
    (clock : nat → timestamptz) (user c : uuid) (w : World) :
  let w' := snd (loadMessages clock user c w) in
  Sorted created_le (st_messages w')
  ∧ st_messages w' ≡ₚ filter (fun m => conversation_id m = c) (messages (db w)).
Proof.
  rewrite loadMessages_run. simpl. unfold select_messages. split.
  - apply (@Sorted_merge_sort _ created_le _ created_le_total).
  - apply merge_sort_Permutation.
Qed.

(** ** The delivery status *)

Lemma delivered_update_message_read t mid d :
  delivered d → delivered (update_message_read t mid d).
Proof.
  unfold delivered. simpl. intros Hd. apply Forall_fmap.
  eapply Forall_impl; [exact Hd|]. intros m. simpl.
  unfold set_read. by case_decide.
Qed.

Lemma delivered_insert_message now c u body date d :
  delivered d → delivered (snd (insert_message now c u body date d)).
Proof.
  unfold delivered, insert_message. intros Hd.
  destruct (storable body); [|done]. simpl.
  apply Forall_app. split; [done|]. by apply Forall_singleton.
Qed.

Lemma reachable_delivered_mirrored (d : Db) :
  reachable d → delivered d ∧ mirrored d.
Proof.
  intros Hr.
  apply (keeps_steps (fun d => delivered d ∧ mirrored d)) with (d0 := empty_db);
    try done.
  - intros now p1 p2 d0. unfold insert_conversation. by repeat case_decide.
  - intros t mid d0 [??]. split;
      [by apply delivered_update_message_read
      |by apply mirrored_update_message_read].
  - intros now c u body date d0 [??]. split;
      [by apply delivered_insert_message|by apply mirrored_insert_message].
  - intros now c u b d0. unfold insert_typing. by case_decide.
  - split; constructor.
Qed.

(** X9: under a message of a reachable store, [getDeliveryStatus] shows
    nothing to anyone but the sender, and shows the sender Read when the
    message is read and Delivered otherwise; Sent is never shown, since
    every message is created with its delivery time. *)
Theorem getDeliveryStatus_reachable (d : Db) (m : message) :
  reachable d → m ∈ messages d →
  getDeliveryStatus (sender_id m) m = Some (if is_read m then Read else Delivered)
  ∧ ∀ u, u ≠ sender_id m → getDeliveryStatus u m = None.
Proof.
  intros [Hdel Hmir]%reachable_delivered_mirrored Hm.
  unfold delivered, mirrored in *. rewrite Forall_forall in Hdel, Hmir.
  specialize (Hdel m Hm). specialize (Hmir m Hm). unfold read_mirror in Hmir.
  unfold getDeliveryStatus. split.
  - rewrite decide_False by (intros H; by apply H). rewrite Hmir.
    destruct (read_at m), (delivered_at m); done.
  - intros u Hu. by rewrite decide_True.
Qed.

Lemma getDeliveryStatus_reachable_witness :
  let m := Message 1 0 1 [72; 105]%N true (Some 7) (Some 9) 8 in
  getDeliveryStatus (sender_id m) m = Some (if is_read m then Read else Delivered)
  ∧ ∀ u, u ≠ sender_id m → getDeliveryStatus u m = None.
Proof.
  apply (getDeliveryStatus_reachable greeted_db
           (Message 1 0 1 [72; 105]%N true (Some 7) (Some 9) 8)).
  - apply reachable_greeted_db.
  - left.
Defined.

(** ** The unread badge *)

(** X10: after a recount on a store that satisfies the schema, the list
    shows no badge for a user with whom there is no conversation (the
    key is missing from the map) nor for a peer without unread messages;
    for a peer with [n > 0] unread messages it shows [n] up to 99 and
    '99+' above. *)
Theorem unreadBadge_after_recount (u : uuid) (w : World) :
  schema_ok (db w) →
  let counts := st_unreadCounts (snd (fetchUnreadCounts (Some u) w)) in
  (∀ p, (∀ conv, conv ∈ conversations (db w) → ¬ pair_filter u p conv) →
        counts !! p = None ∧ unreadBadge counts p = None)
  ∧ ∀ conv, conv ∈ conversations (db w) → participant_filter u conv →
      let n := length (filter (unread_for (conv_id conv) u) (messages (db w))) in
      unreadBadge counts (otherUserId u conv) =
        if decide (n = 0) then None
        else if decide (n ≤ 99) then Some (Count n) else Some NinetyNinePlus.
Proof.
  intros Hd counts. split.
  - intros p Hp.
    assert (counts !! p = None) as Hnone.
    { apply not_elem_of_dom. subst counts.
      rewrite fetchUnreadCounts_run. simpl.
      rewrite fill_dom, dom_empty_L, (left_id_L ∅ (∪)), elem_of_list_to_set.
      intros [conv [-> [Hu Hin]%list_elem_of_filter]]%list_elem_of_fmap.
      apply (Hp conv Hin). unfold pair_filter, otherUserId.
      destruct Hu as [Hu|Hu]; case_decide; auto; congruence. }
    split; [done|]. unfold unreadBadge, unreadCount. by rewrite Hnone.
  - intros conv Hin Hu n. unfold unreadBadge, unreadCount. subst counts.
    rewrite (fetchUnreadCounts_lookup u w conv Hd Hin Hu). simpl. fold n.
    repeat case_decide; try done; lia.
Qed.

Lemma unreadBadge_after_recount_witness :
  let w := initial_world chat_db in
  let counts := st_unreadCounts (snd (fetchUnreadCounts (Some 2) w)) in
  (∀ p, (∀ conv, conv ∈ conversations (db w) → ¬ pair_filter 2 p conv) →
        counts !! p = None ∧ unreadBadge counts p = None)
  ∧ ∀ conv, conv ∈ conversations (db w) → participant_filter 2 conv →
      let n := length (filter (unread_for (conv_id conv) 2) (messages (db w))) in
      unreadBadge counts (otherUserId 2 conv) =
        if decide (n = 0) then None
        else if decide (n ≤ 99) then Some (Count n) else Some NinetyNinePlus.
Proof.
  apply (unreadBadge_after_recount 2 (initial_world chat_db)), schema_ok_chat_db.
Defined.

(** ** The message input *)

Lemma handleSubmit_enabled date now user disabled w :
  sendDisabled (st_message w) disabled = false →
  handleSubmit date now user disabled w =
    let w1 := snd (setMessage [] w) in
    let w2 := snd (updateTypingIndicator date now user false w1) in
    handleSendMessage date now user (trim (st_message w)) w2.
Proof.
  unfold sendDisabled, handleSubmit. intros ->. unfold bind at 1. simpl.
  unfold bind at 1.
  destruct (st_conversationId w) as [c|] eqn:Hc.
  - by rewrite (updateTypingIndicator_run _ _ _ _ _ c).
  - by rewrite updateTypingIndicator_closed.
Qed.

Lemma sendDisabled_false message disabled :
  sendDisabled message disabled = false → trim message ≠ [] ∧ disabled = false.
Proof.
  unfold sendDisabled. intros [H ->]%orb_false_elim. split; [|done].
  by destruct (trim message).
Qed.

(** X11: the Send button is disabled exactly when submitting would do
    nothing at all: [handleSubmit] leaves the store and the component
    state untouched if and only if the text is blank after trimming or
    the input is disabled. *)
Theorem sendDisabled_iff_noop
    (date now : timestamptz) (user : uuid) (disabled : bool) (w : World) :
  sendDisabled (st_message w) disabled = true
  ↔ handleSubmit date now user disabled w = (Returned tt, w).
Proof.
  split.
  - unfold sendDisabled, handleSubmit. by intros ->.
  - intros Hrun. destruct (sendDisabled (st_message w) disabled) eqn:Hdis; [done|].
    exfalso. destruct (sendDisabled_false _ _ Hdis) as [Hne _].
    rewrite (handleSubmit_enabled _ _ _ _ _ Hdis) in Hrun. simpl in Hrun.
    assert (st_message (snd (handleSendMessage date now user (trim (st_message w))
              (snd (updateTypingIndicator date now user false
                      (snd (setMessage [] w)))))) = []) as Hbox.
    { destruct (st_conversationId w) as [c|] eqn:Hc.
      - rewrite (updateTypingIndicator_run _ _ _ _ _ c) by done.
        rewrite (handleSendMessage_sent _ _ _ _ _ c); [done| |done].
        by rewrite trim_idem.
      - rewrite updateTypingIndicator_closed by done.
        by rewrite handleSendMessage_no_conversation. }
    simpl in Hbox. rewrite Hrun in Hbox. simpl in Hbox.
    by rewrite Hbox in Hne.
Qed.

Lemma handleSubmit_open date now user disabled w c :
  schema_ok (db w) → st_conversationId w = Some c →
  sendDisabled (st_message w) disabled = false →
  let w' := snd (handleSubmit date now user disabled w) in
  fst (handleSubmit date now user disabled w) = Returned tt
  ∧ st_message w' = []
  ∧ st_conversationId w' = Some c
  ∧ schema_ok (db w')
  ∧ ∃ t, filter (typing_filter c user) (typing_indicators (db w')) = [t]
         ∧ is_typing t = false.
Proof.
  intros Hd Hc Hdis. destruct (sendDisabled_false _ _ Hdis) as [Hne _].
  rewrite (handleSubmit_enabled _ _ _ _ _ Hdis). simpl.
  set (w1 := MkWorld _ _ _ _ _ _ _).
  destruct (updateTypingIndicator_step date now user false w1 c Hd Hc)
    as (Hd2 & Hc2 & Ht & _).
  assert (st_message (snd (updateTypingIndicator date now user false w1)) = [])
    as Hbox by by rewrite (updateTypingIndicator_run _ _ _ _ _ c).
  set (w2 := snd (updateTypingIndicator date now user false w1)) in *.
  rewrite (handleSendMessage_sent _ _ _ _ w2 c); [|by rewrite trim_idem|done].
  cbn [fst snd]. rewrite db_set_db.
  split_and!; try done; [by apply schema_ok_insert_message|].
  unfold insert_message. by destruct (storable _).
Qed.

(** X12: submitting non-blank text in an open conversation, on a store
    that satisfies the schema, returns normally, empties the input box
    and leaves exactly one typing-indicator row for the user in that
    conversation, with [is_typing = false]. *)
Theorem handleSubmit_stops_typing
    (date now : timestamptz) (user c : uuid) (w : World) :
  schema_ok (db w) → st_conversationId w = Some c → trim (st_message w) ≠ [] →
  let w' := snd (handleSubmit date now user false w) in
  fst (handleSubmit date now user false w) = Returned tt
  ∧ st_message w' = []
  ∧ ∃ t, filter (typing_filter c user) (typing_indicators (db w')) = [t]
         ∧ is_typing t = false.
Proof.
  intros Hd Hc Hne.
  assert (sendDisabled (st_message w) false = false) as Hdis.
  { unfold sendDisabled. by rewrite (falsy_false _ Hne). }
  destruct (handleSubmit_open date now user false w c Hd Hc Hdis)
    as (? & ? & _ & _ & ?). done.
Qed.

Lemma handleSubmit_stops_typing_witness :
  let w := MkWorld (MkDb [Conversation 0 1 2 5 5]
                         [] [TypingIndicator 1 0 1 true 6] 2)
                   [] (Some 0) false false ∅ [32; 72; 105]%N in
  let w' := snd (handleSubmit 7 8 1 false w) in
  fst (handleSubmit 7 8 1 false w) = Returned tt
  ∧ st_message w' = []
  ∧ ∃ t, filter (typing_filter 0 1) (typing_indicators (db w')) = [t]
         ∧ is_typing t = false.
Proof.
  apply (handleSubmit_stops_typing 7 8 1 0
           (MkWorld (MkDb [Conversation 0 1 2 5 5]
                          [] [TypingIndicator 1 0 1 true 6] 2)
                    [] (Some 0) false false ∅ [32; 72; 105]%N)).
  - split; simpl; apply (bool_decide_unpack _); by vm_compute.
  - reflexivity.
  - discriminate.
Defined.

(** X13: submitting while no conversation is open (the resolver failed,
    so [conversationId] is still [null]) silently discards the text: the
    call returns normally, the input box is emptied and nothing is
    written to the store. *)
Theorem handleSubmit_without_conversation
    (date now : timestamptz) (user : uuid) (w : World) :
  st_conversationId w = None → trim (st_message w) ≠ [] →
  handleSubmit date now user false w = (Returned tt, snd (setMessage [] w))
  ∧ db (snd (handleSubmit date now user false w)) = db w
  ∧ st_message (snd (handleSubmit date now user false w)) = [].
Proof.
  intros Hc Hne.
  assert (sendDisabled (st_message w) false = false) as Hdis.
  { unfold sendDisabled. by rewrite (falsy_false _ Hne). }
  rewrite (handleSubmit_enabled _ _ _ _ _ Hdis). simpl.
  rewrite updateTypingIndicator_closed by done.
  by rewrite handleSendMessage_no_conversation.
Qed.

Lemma handleSubmit_without_conversation_witness :
  let w := MkWorld chat_db [] None false false ∅ [72; 105]%N in
  handleSubmit 7 8 2 false w = (Returned tt, snd (setMessage [] w))
  ∧ db (snd (handleSubmit 7 8 2 false w)) = db w
  ∧ st_message (snd (handleSubmit 7 8 2 false w)) = [].
Proof.
  apply (handleSubmit_without_conversation 7 8 2
           (MkWorld chat_db [] None false false ∅ [72; 105]%N)).
  - reflexivity.
  - discriminate.
Defined.

(** ** The typing timer *)

Lemma clearTypingTimeout_pending (t : Timers) :
  (pending t = [] ∨ ∃ i, pending t = [S i] ∧ typingTimeoutRef t = Some (S i)) →
  pending (clearTypingTimeout t) = []
  ∧ next_timer (clearTypingTimeout t) = next_timer t.
Proof.
  unfold clearTypingTimeout, clearTimeout.
  intros [E|[i [E Href]]].
  - destruct (typingTimeoutRef t) as [[|j]|]; simpl; by rewrite ?E.
  - rewrite Href. simpl. rewrite E, filter_cons, filter_nil.
    by rewrite decide_False by (intros H; by apply H).
Qed.

Lemma last_onTyping_snoc (calls : list PropCall) (typing : bool) :
  last_onTyping (calls ++ [onTyping typing]) = Some typing.
Proof. unfold last_onTyping. rewrite omap_app. simpl. apply last_snoc. Qed.

Lemma last_onTyping_send (calls : list PropCall) (content : text) :
  last_onTyping (calls ++ [onSendMessage content]) = last_onTyping calls.
Proof. unfold last_onTyping. rewrite omap_app. simpl. by rewrite app_nil_r. Qed.

Section MessageInputSteps.
Variable has_onTyping : bool.

Lemma handleChange_ok (value : text) (s : MessageInput) :
  input_ok has_onTyping s → input_ok has_onTyping (handleChange has_onTyping value s).
Proof.
  intros (Hnext & Hoff & Hpend & Hon & Hsent). unfold handleChange.
  destruct has_onTyping; [|done].
  destruct (clearTypingTimeout_pending _ Hpend) as [Hp Hn].
  unfold input_ok, armTimeout. simpl. rewrite Hp, Hn.
  split_and!; [lia|done| |done|].
  - right. destruct (next_timer (input_timers s)) as [|i]; [lia|]. by exists i.
  - apply Forall_app. split; [done|]. by apply Forall_singleton.
Qed.

Lemma timerFires_ok (id : nat) (s : MessageInput) :
  input_ok has_onTyping s → input_ok has_onTyping (timerFires id s).
Proof.
  intros (Hnext & Hoff & Hpend & Hon & Hsent). unfold timerFires.
  case_decide as Hid; [|done].
  destruct Hpend as [E|[i [E Href]]];
    [rewrite E in Hid; by apply not_elem_of_nil in Hid|].
  rewrite E in Hid. apply list_elem_of_singleton in Hid as ->.
  unfold input_ok, clearTimeout. simpl.
  rewrite E, filter_cons, filter_nil.
  rewrite decide_False by (intros H; by apply H).
  rewrite last_onTyping_snoc. split_and!; [done| |by left|done|].
  - intros Hno. destruct (Hoff Hno) as [Hp _]. by rewrite E in Hp.
  - apply Forall_app. split; [done|]. by apply Forall_singleton.
Qed.

Lemma handleSubmit_props_ok (disabled : bool) (s : MessageInput) :
  input_ok has_onTyping s →
  input_ok has_onTyping (handleSubmit_props has_onTyping disabled s).
Proof.
  intros (Hnext & Hoff & Hpend & Hon & Hsent). unfold handleSubmit_props.
  destruct (falsy (trim (input_message s)) || disabled) eqn:Hdis; [done|].
  apply orb_false_iff in Hdis as [Hblank _].
  destruct (clearTypingTimeout_pending _ Hpend) as [Hp Hn].
  unfold input_ok. simpl. rewrite Hp, Hn, app_assoc, last_onTyping_send.
  split_and!; [done| |by left| |].
  - intros ->. rewrite app_nil_r. split; [done|]. by apply Hoff.
  - destruct has_onTyping; [by rewrite last_onTyping_snoc|].
    rewrite app_nil_r. destruct (Hoff eq_refl) as [_ ->]. done.
  - rewrite !Forall_app. split_and!; [done|by destruct has_onTyping; repeat constructor|].
    apply Forall_singleton. intros content [= <-]. split; [|apply trim_idem].
    by destruct (trim (input_message s)).
Qed.

Lemma input_event_ok (ev : InputEvent) (s : MessageInput) :
  input_ok has_onTyping s → input_ok has_onTyping (input_event has_onTyping ev s).
Proof.
  intros Hs. destruct ev as [value|id|disabled|disabled enter shiftKey]; simpl.
  - by apply handleChange_ok.
  - by apply timerFires_ok.
  - by apply handleSubmit_props_ok.
  - unfold handleKeyPress. destruct (enter && negb shiftKey); [|done].
    by apply handleSubmit_props_ok.
Qed.

Lemma input_events_ok (evs : list InputEvent) :
  input_ok has_onTyping (input_events has_onTyping evs initial_MessageInput).
Proof.
  induction evs as [|ev evs IH] using rev_ind.
  - unfold input_ok. simpl. split_and!; try done. by left.
  - unfold input_events in *. rewrite foldl_app. by apply input_event_ok.
Qed.
End MessageInputSteps.

(** X14: for a mounted [MessageInput], whatever its props go on to do,
    after any run of text changes, timer firings, submits and key
    presses: at most one timer is armed and it is the one
    [typingTimeoutRef] holds; whenever the latest [onTyping] call the
    component started was [onTyping(true)], a timer that will call
    [onTyping(false)] is armed; and [onSendMessage] has only been called
    with trimmed, non-empty text. *)
Theorem onTyping_true_has_timer (has_onTyping : bool) (evs : list InputEvent) :
  let s := input_events has_onTyping evs initial_MessageInput in
  length (pending (input_timers s)) ≤ 1
  ∧ (∀ id, id ∈ pending (input_timers s) →
           typingTimeoutRef (input_timers s) = Some id)
  ∧ (last_onTyping (input_calls s) = Some true → pending (input_timers s) ≠ [])
  ∧ Forall (fun c => ∀ content, c = onSendMessage content →
                                content ≠ [] ∧ trim content = content)
           (input_calls s).
Proof.
  intros s.
  destruct (input_events_ok has_onTyping evs) as (_ & _ & Hpend & Hon & Hsent).
  fold s in Hpend, Hon, Hsent. split_and!; [| |done|done].
  - destruct Hpend as [->|[i [-> _]]]; simpl; lia.
  - intros id Hid. destruct Hpend as [E|[i [E Href]]].
    + rewrite E in Hid. by apply not_elem_of_nil in Hid.
    + rewrite E in Hid. by apply list_elem_of_singleton in Hid as ->.
Qed.

(** Two text changes, the first one's timer (already cleared) and an
    Enter with Shift do nothing more, and the submit sends the trimmed
    text with timer 2 disarmed; then a third change arms timer 3, which
    runs. *)
Example typing_then_submit :
  let s := input_events true
             [Change [72]%N; Change [72; 105; 32]%N; TimerFires 1;
              KeyPress false true true; SubmitForm false;
              Change [33]%N; TimerFires 3]
             initial_MessageInput in
  s = MkMessageInput [33]%N (MkTimers (Some 3) [] 4)
        [onTyping true; onTyping true; onTyping false;
         onSendMessage [72; 105]%N; onTyping true; onTyping false].
Proof. by vm_compute. Qed.

(** ** Selecting a user *)

(** X15: after any run of user selections and presses of the back
    button, the sidebar is shown exactly when no user is selected, so
    the chat pane is on a narrow screen exactly when the message input
    is enabled. *)
Theorem ChatApp_pane_invariant (evs : list AppEvent) :
  let s := app_events evs initial_ChatApp in
  (app_showSidebar s = true ↔ app_selectedUser s = None)
  ∧ mainHidden s = inputDisabled (app_selectedUser s).
Proof.
  induction evs as [|ev evs IH] using rev_ind; [done|].
  unfold app_events. rewrite foldl_app. simpl.
  by destruct ev.
Qed.

(** ** Row-level security *)

(** X16: the writes of a chat window pass the row-level-security policies
    of the migration: after opening the chat with another user on a
    store that satisfies the schema, the user may access (read and
    update) every message of the loaded history, and the row that a
    send appends, for non-blank content that the column [content text]
    can hold, passes the insert policy (the sender is the session user
    and takes part in the conversation). *)
Theorem chat_window_passes_policies
    (now : timestamptz) (clock : nat → timestamptz)
    (user selectedUser : uuid) (w : World) :
  schema_ok (db w) → user ≠ selectedUser →
  let w' := snd (initializeConversation now clock user selectedUser w) in
  Forall (fun m => may_access_message user m (db w')) (st_messages w')
  ∧ ∀ date now' content, trim content ≠ [] → storable (trim content) = true →
      ∃ m, messages (db (snd (handleSendMessage date now' user content w')))
           = messages (db w') ++ [m]
           ∧ may_insert_message user m (db w').
Proof.
  intros Hd Hne.
  destruct (resolver_total user selectedUser now (snd (setLoading true w)) Hd Hne)
    as (c & w1 & Hrun & Hd1 & _ & E).
  rewrite (initializeConversation_resolved _ clock _ _ _ _ _ Hrun).
  rewrite loadMessages_run. simpl.
  assert (c ∈ conversations (db w1) ∧ pair_filter user selectedUser c)
    as [Hin Hc].
  { assert (c ∈ filter (pair_filter user selectedUser) (conversations (db w1)))
      as [??]%list_elem_of_filter by (rewrite E; left). done. }
  destruct (pair_filter_other _ _ _ Hne Hc) as (Hu & _).
  assert (∀ m, conversation_id m = conv_id c →
               Exists (fun c0 => conv_id c0 = conversation_id m
                                 ∧ participant_filter user c0)
                      (conversations (db w1))) as Hpart.
  { intros m Hm. apply Exists_exists. exists c. by rewrite Hm. }
  split.
  - apply Forall_forall. intros m Hm.
    apply elem_of_select_messages in Hm as [Hm _].
    unfold may_access_message, is_participant. simpl. by apply Hpart.
  - intros date now' content Hcontent Hs.
    rewrite (handleSendMessage_sent _ _ _ _ _ (conv_id c)); [|done..].
    cbn [snd]. rewrite db_set_db, insert_message_messages, Hs.
    eexists. split; [done|].
    unfold may_insert_message, is_participant. simpl. split; [done|].
    apply Exists_exists. by exists c.
Qed.

Lemma chat_window_passes_policies_witness :
  let w' := snd (initializeConversation 30 (fun k => 50 + k) 2 1
                   (initial_world chat_db)) in
  Forall (fun m => may_access_message 2 m (db w')) (st_messages w')
  ∧ ∀ date now' content, trim content ≠ [] → storable (trim content) = true →
      ∃ m, messages (db (snd (handleSendMessage date now' 2 content w')))
           = messages (db w') ++ [m]
           ∧ may_insert_message 2 m (db w').
Proof.
  apply (chat_window_passes_policies 30 (fun k => 50 + k) 2 1
           (initial_world chat_db)).
  - apply schema_ok_chat_db.
  - lia.
Defined.

(** ** Messages are never edited or deleted *)

Lemma same_message_set_read t mid m : same_message m (set_read t mid m).
Proof. unfold same_message, set_read. by case_decide. Qed.

Lemma same_message_trans m1 m2 m3 :
  same_message m1 m2 → same_message m2 m3 → same_message m1 m3.
Proof.
  unfold same_message. intros (?&?&?&?&?&?&?) (?&?&?&?&?&?&?).
  split_and!; try congruence. auto.
Qed.

Lemma keeps_messages_update_message_read d0 t mid d :
  keeps_messages d0 d → keeps_messages d0 (update_message_read t mid d).
Proof.
  unfold keeps_messages. simpl. intros H0.
  eapply Forall_impl; [exact H0|]. intros m0 [m [Hm Hsame]]%Exists_exists.
  apply Exists_exists. exists (set_read t mid m). split.
  - by apply list_elem_of_fmap_2.
  - eapply same_message_trans; [done|apply same_message_set_read].
Qed.

Lemma keeps_messages_insert_message d0 now c u body date d :
  keeps_messages d0 d →
  keeps_messages d0 (snd (insert_message now c u body date d)).
Proof.
  unfold keeps_messages, insert_message. intros H0.
  destruct (storable body); [|done]. simpl.
  eapply Forall_impl; [exact H0|]. intros m0 Hm0.
  apply Exists_app. by left.
Qed.

(** X17: no entry point of the client edits or deletes a message: along
    any run of client steps every stored message stays in the store with
    its id, conversation, sender, content, delivery time and creation
    time unchanged, and a message that is read stays read. *)
Theorem messages_never_edited (d d' : Db) :
  rtc db_step d d' →
  Forall (fun m =>
            Exists (fun m' =>
                      msg_id m' = msg_id m
                      ∧ conversation_id m' = conversation_id m
                      ∧ sender_id m' = sender_id m
                      ∧ content m' = content m
                      ∧ delivered_at m' = delivered_at m
                      ∧ created_at m' = created_at m
                      ∧ (is_read m = true → is_read m' = true))
                   (messages d'))
         (messages d).
Proof.
  intros Hr. apply (keeps_steps (keeps_messages d)) with (d0 := d); try done.
  - intros now p1 p2 d0. unfold insert_conversation. by repeat case_decide.
  - intros t mid d0. apply keeps_messages_update_message_read.
  - intros now c u body date d0. apply keeps_messages_insert_message.
  - intros now c u b d0. unfold insert_typing. by case_decide.
  - unfold keeps_messages. apply Forall_forall. intros m Hm.
    apply Exists_exists. exists m. split; [done|]. by unfold same_message.
Qed.

Lemma messages_never_edited_witness :
  let d := MkDb [Conversation 0 1 2 5 8]
                [Message 1 0 1 [72; 105]%N false (Some 7) None 8] [] 2 in
  Forall (fun m =>
            Exists (fun m' =>
                      msg_id m' = msg_id m
                      ∧ conversation_id m' = conversation_id m
                      ∧ sender_id m' = sender_id m
                      ∧ content m' = content m
                      ∧ delivered_at m' = delivered_at m
                      ∧ created_at m' = created_at m
                      ∧ (is_read m = true → is_read m' = true))
                   (messages greeted_db))
         (messages d).
Proof.
  apply (messages_never_edited
           (MkDb [Conversation 0 1 2 5 8]
                 [Message 1 0 1 [72; 105]%N false (Some 7) None 8] [] 2)
           greeted_db).
  apply rtc_once.
  exists (MessageEvent 9 2
            (INSERT (Message 1 0 1 [72; 105]%N false (Some 7) None 8))),
         (MkWorld (MkDb [Conversation 0 1 2 5 8]
                        [Message 1 0 1 [72; 105]%N false (Some 7) None 8] [] 2)
                  [] (Some 0) false false ∅ []).
  split; reflexivity.
Defined.

(** ** The schema in reachable stores *)

Lemma reachable_schema_ok_witness : schema_ok greeted_db.
Proof. apply (reachable_schema_ok greeted_db), reachable_greeted_db. Defined.

(** ** The typing indicator of the peer *)

(** X19: the row a user's [updateTypingIndicator] leaves in the store,
    delivered as a change event, sets the typing flag of any other
    user's window to the value written and leaves the writer's own
    window as it is; the handler never writes to the store. *)
Theorem typingChannel_shows_peer
    (date now : timestamptz) (user c : uuid) (typing : bool) (w : World) :
  schema_ok (db w) → st_conversationId w = Some c →
  let w1 := snd (updateTypingIndicator date now user typing w) in
  ∃ t, filter (typing_filter c user) (typing_indicators (db w1)) = [t]
       ∧ ∀ viewer wv,
           db (snd (typingChannel viewer (NewRow t) wv)) = db wv
           ∧ st_isTyping (snd (typingChannel viewer (NewRow t) wv))
             = (if decide (viewer = user) then st_isTyping wv else typing).
Proof.
  intros Hd Hc.
  destruct (updateTypingIndicator_step date now user typing w c Hd Hc)
    as (_ & _ & [t [Et Ht]] & _).
  exists t. split; [done|]. intros viewer wv.
  assert (ti_user_id t = user) as Hu.
  { assert (t ∈ filter (typing_filter c user)
                  (typing_indicators
                     (db (snd (updateTypingIndicator date now user typing w)))))
      as [[_ ?] _]%list_elem_of_filter by (rewrite Et; left). done. }
  unfold typingChannel. rewrite Hu.
  destruct (decide (viewer = user)) as [->|Hv].
  - by rewrite decide_False by (intros H; by apply H).
  - rewrite decide_True by congruence. by rewrite <- Ht.
Qed.

Lemma typingChannel_shows_peer_witness :
  let w := MkWorld (MkDb [Conversation 0 1 2 5 5] [] [] 1)
                   [] (Some 0) false false ∅ [] in
  let w1 := snd (updateTypingIndicator 10 11 1 true w) in
  ∃ t, filter (typing_filter 0 1) (typing_indicators (db w1)) = [t]
       ∧ ∀ viewer wv,
           db (snd (typingChannel viewer (NewRow t) wv)) = db wv
           ∧ st_isTyping (snd (typingChannel viewer (NewRow t) wv))
             = (if decide (viewer = 1) then st_isTyping wv else true).
Proof.
  apply (typingChannel_shows_peer 10 11 1 0 true
           (MkWorld (MkDb [Conversation 0 1 2 5 5] [] [] 1)
                    [] (Some 0) false false ∅ [])).
  - split; simpl; apply (bool_decide_unpack _); by vm_compute.
  - reflexivity.
Defined.

(** ** Marking an absent message *)

(** X20: [markMessageAsRead] changes no row but those with the given id,
    and for an id that no stored message has it returns normally and
    changes nothing at all. *)
Theorem markMessageAsRead_only_that_message
    (t : timestamptz) (mid : uuid) (w : World) :
  let w' := snd (markMessageAsRead t mid w) in
  filter (fun m => msg_id m ≠ mid) (messages (db w'))
  = filter (fun m => msg_id m ≠ mid) (messages (db w))
  ∧ (mid ∉ msg_id <$> messages (db w) →
     markMessageAsRead t mid w = (Returned tt, w)).
Proof.
  rewrite markMessageAsRead_run. simpl. split.
  - induction (messages (db w)) as [|m l IH]; [done|].
    rewrite fmap_cons, !filter_cons, msg_id_set_read.
    destruct (decide (msg_id m ≠ mid)) as [E|E]; [|apply IH].
    by rewrite (set_read_other _ _ _ E), IH.
  - intros Hmid. f_equal.
    assert (set_read t mid <$> messages (db w) = messages (db w)) as E.
    { rewrite <- (list_fmap_id (messages (db w))) at 2.
      apply list_fmap_ext. intros i m Hm. simpl. apply set_read_other.
      intros <-. apply Hmid, list_elem_of_fmap_2.
      by eapply list_elem_of_lookup_2. }
    unfold set_db, update_message_read. rewrite E.
    by destruct w as [[] ? ? ? ? ? ?].
Qed.

Lemma markMessageAsRead_only_that_message_witness :
  markMessageAsRead 50 99 (initial_world chat_db)
  = (Returned tt, initial_world chat_db).
Proof.
  apply (markMessageAsRead_only_that_message 50 99 (initial_world chat_db)).
  apply (bool_decide_unpack _). by vm_compute.
Defined.
